(** * FlightPlanManager: slot table, mutation API and sync protocol

    A shallow embedding of
    [fbw-a32nx/src/systems/fmgc/src/flightplanning/new/FlightPlanManager.ts].

    One [FlightPlanManager] object is modelled as a record ([Manager]) that is
    threaded through a state-and-exception monad: a JavaScript [throw] keeps
    every assignment made before it, so a computation returns its completion
    (normal or thrown) together with the state it leaves behind.

    Indices are natural numbers, the small non-negative integers of the data
    model.  What [console.log] prints is left out; a call of [get] made to
    compute what it prints is kept. *)

From stdpp Require Import base option list.

(** ** The enum of reserved indices *)

Inductive FlightPlanIndex := Active | Temporary | Uplink | FirstSecondary.

(** A TypeScript numeric enum numbers its members from zero. *)
Definition FlightPlanIndex_value (i : FlightPlanIndex) : nat :=
  match i with
  | Active => 0
  | Temporary => 1
  | Uplink => 2
  | FirstSecondary => 3
  end.

(** ** The FlightPlan collaborator *)

Module FlightPlan.

(** Modelled from the spec: the class [FlightPlan] ([plans/FlightPlan.ts]) is
    imported by the manager but is not among the sources.  The spec treats it
    as an opaque, serializable, cloneable, versioned value tagged with the
    index of the slot it occupies: [clone(newIndex)] gives an independent deep
    copy tagged with [newIndex], [incrementVersion()] bumps the version
    counter, and [deserialize(index, form, bus)] rebuilds a plan for [index].
    The operations are parameters; the laws are what the spec says of them.

    [incrementVersion] mutates the receiver in place; here it is the function
    from the old value of the object to its new value. *)
Class Ops (T F : Type) := {
  index : T → nat;
  version : T → nat;
  empty : nat → T;
  clone : T → nat → T;
  incrementVersion : T → T;
  serialize : T → F;
  fromSerializedFlightPlan : nat → F → T;
  index_empty i : index (empty i) = i;
  index_clone p i : index (clone p i) = i;
  index_incrementVersion p : index (incrementVersion p) = index p;
  index_fromSerializedFlightPlan i f : index (fromSerializedFlightPlan i f) = i;
  version_clone p i : version (clone p i) = version p;
  version_incrementVersion p : version (incrementVersion p) = S (version p);
}.

End FlightPlan.

(** ** A concrete FlightPlan *)

Module SimplePlan.

(** Modelled from the spec: a smallest value type that meets the contract
    above, used to run the manager on concrete inputs.  The logical content
    of a plan (legs, waypoints) is a list of numbers; the serialized form is
    that content, and a plan rebuilt from it starts at version zero. *)
Record t := mk { index : nat; version : nat; legs : list nat }.

Definition empty (i : nat) : t := mk i 0 [].
Definition clone (p : t) (i : nat) : t := mk i (version p) (legs p).
Definition incrementVersion (p : t) : t := mk (index p) (S (version p)) (legs p).
Definition serialize (p : t) : list nat := legs p.
Definition fromSerializedFlightPlan (i : nat) (f : list nat) : t := mk i 0 f.

#[global] Instance ops : FlightPlan.Ops t (list nat).
Proof.
  refine {| FlightPlan.index := index;
            FlightPlan.version := version;
            FlightPlan.empty := empty;
            FlightPlan.clone := clone;
            FlightPlan.incrementVersion := incrementVersion;
            FlightPlan.serialize := serialize;
            FlightPlan.fromSerializedFlightPlan := fromSerializedFlightPlan |};
    reflexivity.
Defined.

End SimplePlan.

(** ** JavaScript arrays and records, as the manager uses them *)

Section JsArray.
Context {A : Type}.

(** [arr[i]]: reading a hole, an explicit [undefined] or an index past the
    end all give [undefined]. *)
Definition slot (arr : list (option A)) (i : nat) : option A :=
  mjoin (arr !! i).

(** [arr[i] = v]: inside the array the element is replaced; past the end
    the array grows, the new positions in between being holes. *)
Definition assign (arr : list (option A)) (i : nat) (v : option A)
  : list (option A) :=
  if decide (i < length arr) then <[i := v]> arr
  else arr ++ replicate (i - length arr) None ++ [v].

(** [rec[k] = v] on an object with integer keys, kept in the order in which
    [Object.entries] lists such keys: ascending, one entry per key. *)
Fixpoint record_set (k : nat) (v : A) (rec : list (nat * A))
  : list (nat * A) :=
  match rec with
  | [] => [(k, v)]
  | (k', v') :: rest =>
      if decide (k < k') then (k, v) :: rec
      else if decide (k = k') then (k, v) :: rest
      else (k', v') :: record_set k v rest
  end.
(** [rec[k]]: the value filed under [k], [undefined] when there is none. *)
Fixpoint record_get (k : nat) (rec : list (nat * A)) : option A :=
  match rec with
  | [] => None
  | (k', v) :: rest => if decide (k = k') then Some v else record_get k rest
  end.

(** The keys of a record, in the order of [Object.entries]. *)
Definition record_keys (rec : list (nat * A)) : list nat := rec.*1.

(** Keys in strictly ascending order, so no key twice. *)
Fixpoint ascending (ks : list nat) : Prop :=
  match ks with
  | [] => True
  | k :: rest => (∀ k', k' ∈ rest → k < k') ∧ ascending rest
  end.
End JsArray.

(** ** The manager *)

Module FlightPlanManager.

(** The errors the two assertions throw (the source throws [Error] with a
    message naming the index; the spec calls them SlotNotFound and
    SlotAlreadyOccupied). *)
Inductive Error :=
| SlotNotFound (index : nat)
| SlotAlreadyOccupied (index : nat).

Inductive Completion (A : Type) :=
| Normal (a : A)
| Thrown (e : Error).
Arguments Normal {A} a.
Arguments Thrown {A} e.

Section Manager.
Context {FP SFP : Type} `{!FlightPlan.Ops FP SFP}.

(** The payloads of [FlightPlanSyncEvents], one constructor per topic. *)
Inductive SyncEvent :=
| EvSyncRequest
| EvSyncResponse (plans : list (nat * SFP))
| EvCreate (planIndex : nat)
| EvDelete (planIndex : nat)
| EvDeleteAll
| EvCopy (planIndex targetPlanIndex : nat)
| EvSwap (planIndex targetPlanIndex : nat).

(** A pending [setTimeout]: the only callback the source schedules sends
    one event, so a timer is its delay (ms) and that event. *)
Record Timer := mkTimer { delay : nat; sends : SyncEvent }.

(** The fields of the object, and the part of the environment its methods
    act on: what it has handed to [syncPub.pub] (oldest first), whether the
    bus delivers a publication back to the publisher's own subscriptions,
    and the timers not yet fired. *)
Record Manager := mkManager {
  plans : list (option FP);
  ignoreSync : bool;
  syncClientID : nat;
  master : bool;
  loopback : bool;
  published : list SyncEvent;
  timers : list Timer;
}.

Definition with_plans (ps : list (option FP)) (m : Manager) : Manager :=
  mkManager ps (ignoreSync m) (syncClientID m) (master m) (loopback m)
    (published m) (timers m).
Definition with_ignoreSync (b : bool) (m : Manager) : Manager :=
  mkManager (plans m) b (syncClientID m) (master m) (loopback m)
    (published m) (timers m).
Definition with_published (evs : list SyncEvent) (m : Manager) : Manager :=
  mkManager (plans m) (ignoreSync m) (syncClientID m) (master m) (loopback m)
    evs (timers m).
Definition with_timers (ts : list Timer) (m : Manager) : Manager :=
  mkManager (plans m) (ignoreSync m) (syncClientID m) (master m) (loopback m)
    (published m) ts.

(** *** The monad of methods *)

Definition M (A : Type) : Type := Manager → Completion A * Manager.

#[export] Instance M_ret : MRet M := λ A a m, (Normal a, m).
#[export] Instance M_bind : MBind M := λ A B f c m,
  match c m with
  | (Normal a, m') => f a m'
  | (Thrown e, m') => (Thrown e, m')
  end.

Definition throw {A} (e : Error) : M A := λ m, (Thrown e, m).
Definition gets {A} (f : Manager → A) : M A := λ m, (Normal (f m), m).
Definition modify (f : Manager → Manager) : M unit := λ m, (Normal tt, f m).
Definition when (b : bool) (c : M unit) : M unit :=
  if b then c else mret tt.

(** [for (const x of xs) body(x)] *)
Fixpoint for_each {A} (xs : list A) (body : A → M unit) : M unit :=
  match xs with
  | [] => mret tt
  | x :: rest => body x ;; for_each rest body
  end.

(** *** Methods

    [deliver] is what the bus does with a publication on the publisher's
    own side: it calls the handlers this object subscribed in its
    constructor.  The methods take it as a parameter; [dispatch] below
    closes the loop. *)
Section Methods.
Variable deliver : SyncEvent → M unit.

Definition assertFlightPlanExists (index : nat) : M unit :=
  plan ← gets (λ m, slot (plans m) index);
  match plan with
  | None => throw (SlotNotFound index)
  | Some _ => mret tt
  end.

Definition assertFlightPlanDoesntExist (index : nat) : M unit :=
  plan ← gets (λ m, slot (plans m) index);
  match plan with
  | Some _ => throw (SlotAlreadyOccupied index)
  | None => mret tt
  end.

Definition has (index : nat) (m : Manager) : bool :=
  bool_decide (slot (plans m) index ≠ None).

(** [get] returns [this.plans[index]] after the assertion; the assertion
    has thrown already when that is [undefined]. *)
Definition get (index : nat) : M FP :=
  assertFlightPlanExists index ;;
  plan ← gets (λ m, slot (plans m) index);
  match plan with
  | Some p => mret p
  | None => throw (SlotNotFound index)
  end.

Definition set (index : nat) (flightPlan : FP) : M unit :=
  modify (λ m, with_plans (assign (plans m) index (Some flightPlan)) m).

(** [syncPub.pub(topic, data, true, false)] *)
Definition pub (e : SyncEvent) : M unit :=
  modify (λ m, with_published (published m ++ [e]) m) ;;
  back ← gets loopback;
  if (back : bool) then deliver e else mret tt.

Definition sendEvent (e : SyncEvent) : M unit :=
  modify (with_ignoreSync true) ;;
  pub e ;;
  modify (with_ignoreSync false).

Definition create (index : nat) (notify : bool) : M unit :=
  assertFlightPlanDoesntExist index ;;
  modify (λ m, with_plans
                 (assign (plans m) index (Some (FlightPlan.empty index))) m) ;;
  when notify (sendEvent (EvCreate index)).

Definition delete (index : nat) (notify : bool) : M unit :=
  assertFlightPlanExists index ;;
  modify (λ m, with_plans (assign (plans m) index None) m) ;;
  when notify (sendEvent (EvDelete index)).

Definition deleteAll (notify : bool) : M unit :=
  modify (with_plans []) ;;
  when notify (sendEvent EvDeleteAll).

(** [this.get(to).incrementVersion()] updates in place the object that
    [set] has just stored at [to]; the clone is referenced from nowhere
    else, so the update is an assignment to that slot.  The third [get] is
    the one inside [console.log(this.get(to).serialize())]. *)
Definition copy (from to : nat) (notify : bool) : M unit :=
  assertFlightPlanExists from ;;
  source ← get from;
  set to (FlightPlan.clone source to) ;;
  newPlan ← get to;
  modify (λ m, with_plans
                 (assign (plans m) to
                    (Some (FlightPlan.incrementVersion newPlan))) m) ;;
  logged ← get to;
  when notify (sendEvent (EvCopy from to)).

Definition swap (a b : nat) (notify : bool) : M unit :=
  assertFlightPlanExists a ;;
  assertFlightPlanExists b ;;
  planA ← get a;
  planB ← get b;
  delete a false ;;
  delete b false ;;
  set a planB ;;
  set b planA ;;
  when notify (sendEvent (EvSwap a b)).

(** *** The handlers subscribed in the constructor *)

(** The record the loop of the syncRequest handler fills: each plan of the
    table goes under the index the plan itself reports. *)
Definition plansRecord (ps : list (option FP)) : list (nat * SFP) :=
  foldl (λ rec plan,
           match plan with
           | Some p => record_set (FlightPlan.index p) (FlightPlan.serialize p) rec
           | None => rec
           end) [] ps.

Definition unlessIgnoring (c : M unit) : M unit :=
  ignoring ← gets ignoreSync;
  if (ignoring : bool) then mret tt else c.

Definition handler (e : SyncEvent) : M unit :=
  match e with
  | EvSyncRequest =>
      unlessIgnoring (
        table ← gets plans;
        sendEvent (EvSyncResponse (plansRecord table)))
  | EvSyncResponse entries =>
      for_each entries (λ '(intIndex, serialisedPlan),
        set intIndex (FlightPlan.fromSerializedFlightPlan intIndex serialisedPlan))
  | EvCreate planIndex => unlessIgnoring (create planIndex false)
  | EvDelete planIndex => unlessIgnoring (delete planIndex false)
  | EvDeleteAll => unlessIgnoring (deleteAll false)
  | EvCopy planIndex targetPlanIndex =>
      unlessIgnoring (copy planIndex targetPlanIndex false)
  | EvSwap planIndex targetPlanIndex =>
      unlessIgnoring (swap planIndex targetPlanIndex false)
  end.
End Methods.

(** The bus calls the handlers, whose publications the bus delivers in
    turn: [depth] bounds that nesting.  At depth zero nothing is
    delivered. *)
Fixpoint dispatch (depth : nat) (e : SyncEvent) : M unit :=
  match depth with
  | 0 => mret tt
  | S d => handler (dispatch d) e
  end.

(** *** Construction and the life of a unit *)

(** The constructor: an empty table, the flag clear, and for a unit that is
    not master the one timer of line 98. *)
Definition new (bus_loopback : bool) (syncClientID : nat) (master : bool)
  : Manager :=
  mkManager [] false syncClientID master bus_loopback []
    (if master then [] else [mkTimer 5000 EvSyncRequest]).

(** What can happen to a unit: a caller invokes a method of the mutation
    API, the bus delivers an event published by another unit, or the
    [k]-th pending timer fires. *)
Inductive Stimulus :=
| CallCreate (index : nat) (notify : bool)
| CallDelete (index : nat) (notify : bool)
| CallDeleteAll (notify : bool)
| CallCopy (from to : nat) (notify : bool)
| CallSwap (a b : nat) (notify : bool)
| Deliver (e : SyncEvent)
| Fire (k : nat).

Definition react (depth : nat) (st : Stimulus) : M unit :=
  let bus := dispatch depth in
  match st with
  | CallCreate i n => create bus i n
  | CallDelete i n => delete bus i n
  | CallDeleteAll n => deleteAll bus n
  | CallCopy f t n => copy bus f t n
  | CallSwap a b n => swap bus a b n
  | Deliver e => bus e
  | Fire k => λ m,
      match timers m !! k with
      | Some tm =>
          sendEvent bus (sends tm)
            (with_timers (take k (timers m) ++ drop (S k) (timers m)) m)
      | None => (Normal tt, m)
      end
  end.

(** A thrown error reaches the caller (or the bus, or the timer loop); the
    unit lives on in the state the failed call left. *)
Definition run (depth : nat) (sts : list Stimulus) (m : Manager) : Manager :=
  foldl (λ m st, (react depth st m).2) m sts.

(** *** Vocabulary of the statements below *)

(** The state a completed [sendEvent e] leaves when the echo of [e] is
    discarded: [e] is on the bus and the flag is clear again. *)
Definition broadcast (e : SyncEvent) (m : Manager) : Manager :=
  with_ignoreSync false (with_published (published m ++ [e]) m).

Definition notified (notify : bool) (e : SyncEvent) (m : Manager) : Manager :=
  if notify then broadcast e m else m.

(** Every topic but syncResponse has a handler that opens with
    [if (!this.ignoreSync)]. *)
Definition guarded (e : SyncEvent) : bool :=
  match e with
  | EvSyncResponse _ => false
  | _ => true
  end.

(** The five events that replay a call of the mutation API, and the call
    each handler makes for them. *)
Definition isMutation (e : SyncEvent) : bool :=
  match e with
  | EvCreate _ | EvDelete _ | EvDeleteAll | EvCopy _ _ | EvSwap _ _ => true
  | EvSyncRequest | EvSyncResponse _ => false
  end.

Definition replay (deliver : SyncEvent → M unit) (e : SyncEvent) : M unit :=
  match e with
  | EvCreate i => create deliver i false
  | EvDelete i => delete deliver i false
  | EvDeleteAll => deleteAll deliver false
  | EvCopy f t => copy deliver f t false
  | EvSwap a b => swap deliver a b false
  | EvSyncRequest | EvSyncResponse _ => mret tt
  end.

(** The table after the loop of the syncResponse handler. *)
Definition install (entries : list (nat * SFP)) (ps : list (option FP))
  : list (option FP) :=
  foldl (λ ps '(i, f),
           assign ps i (Some (FlightPlan.fromSerializedFlightPlan i f)))
    ps entries.

Definition isSyncRequest (e : SyncEvent) : bool :=
  match e with
  | EvSyncRequest => true
  | _ => false
  end.

(** How many snapshot requests a list of publications holds. *)
Fixpoint countRequests (evs : list SyncEvent) : nat :=
  match evs with
  | [] => 0
  | e :: rest => (if isSyncRequest e then 1 else 0) + countRequests rest
  end.

(** What no method and no handler changes: the role, the pending timers,
    and how many snapshot requests the unit has published; and a flag that
    was clear is clear again when they are done. *)
Definition steady (m m' : Manager) : Prop :=
  master m' = master m ∧ timers m' = timers m ∧
  countRequests (published m') = countRequests (published m) ∧
  (ignoreSync m = false → ignoreSync m' = false).

Definition preserves {A} (c : M A) : Prop := ∀ m, steady m (c m).2.

(** The invariant of a unit's life: requests published so far plus timers
    still pending is one for a unit that is not master and zero for the
    master, and a pending timer is the one of the constructor. *)
Definition bootstrapInv (m : Manager) : Prop :=
  countRequests (published m) + length (timers m)
  = (if master m then 0 else 1) ∧
  (∀ tm, tm ∈ timers m → tm = mkTimer 5000 EvSyncRequest).

(** The tagging invariant of the data model: the plan in slot [i] reports
    index [i]. *)
Definition wellTagged (ps : list (option FP)) : Prop :=
  ∀ i p, slot ps i = Some p → FlightPlan.index p = i.

(** A stimulus that is a call of one of the five mutating methods. *)
Definition isCall (st : Stimulus) : bool :=
  match st with
  | Deliver _ | Fire _ => false
  | _ => true
  end.

(** The event each mutating method hands to [sendEvent] at its end, when it
    is called with [notify] set (lines 125-127, 135-137, 143-145, 158-160,
    176-178). *)
Definition announcement (st : Stimulus) : list SyncEvent :=
  match st with
  | CallCreate i true => [EvCreate i]
  | CallDelete i true => [EvDelete i]
  | CallDeleteAll true => [EvDeleteAll]
  | CallCopy f t true => [EvCopy f t]
  | CallSwap a b true => [EvSwap a b]
  | _ => []
  end.

(** A stimulus that involves no [swap], called or replayed. *)
Definition swapFree (st : Stimulus) : bool :=
  match st with
  | CallSwap _ _ _ | Deliver (EvSwap _ _) => false
  | _ => true
  end.

(** The state after the publications [evs], each sent by a [sendEvent]
    whose echo was discarded. *)
Definition announced (evs : list SyncEvent) (m : Manager) : Manager :=
  foldl (λ m e, broadcast e m) m evs.

(** What a call of a mutating method does to the table, and how it
    completes, read as a function of the table alone: the summary that
    [react_call] below proves of the five methods. *)
Definition onTable (st : Stimulus) (ps : list (option FP))
  : Completion unit * list (option FP) :=
  match st with
  | CallCreate i _ =>
      match slot ps i with
      | Some _ => (Thrown (SlotAlreadyOccupied i), ps)
      | None => (Normal tt, assign ps i (Some (FlightPlan.empty i)))
      end
  | CallDelete i _ =>
      match slot ps i with
      | Some _ => (Normal tt, assign ps i None)
      | None => (Thrown (SlotNotFound i), ps)
      end
  | CallDeleteAll _ => (Normal tt, [])
  | CallCopy f t _ =>
      match slot ps f with
      | Some p =>
          (Normal tt,
           assign (assign ps t (Some (FlightPlan.clone p t))) t
             (Some (FlightPlan.incrementVersion (FlightPlan.clone p t))))
      | None => (Thrown (SlotNotFound f), ps)
      end
  | CallSwap a b _ =>
      match slot ps a, slot ps b with
      | None, _ => (Thrown (SlotNotFound a), ps)
      | Some _, None => (Thrown (SlotNotFound b), ps)
      | Some pa, Some pb =>
          if decide (a = b) then (Thrown (SlotNotFound a), assign ps a None)
          else (Normal tt,
                assign (assign (assign (assign ps a None) b None) a (Some pb))
                  b (Some pa))
      end
  | Deliver _ | Fire _ => (Normal tt, ps)
  end.

(** What a snapshot makes of a slot: the plan rebuilt for index [i] from the
    serialized form of the plan the sender held there. *)
Definition rebuilt (i : nat) (p : FP) : FP :=
  FlightPlan.fromSerializedFlightPlan i (FlightPlan.serialize p).

End Manager.

Arguments SyncEvent : clear implicits.
Arguments Timer : clear implicits.
Arguments Manager : clear implicits.
Arguments Stimulus : clear implicits.

End FlightPlanManager.

Import FlightPlanManager.

(** ** Units to run the manager on *)

Module Examples.

Definition Unit : Type := Manager SimplePlan.t (list nat).

(** A unit that is not master, just constructed, on a bus that delivers a
    publication back to the publisher. *)
Definition fresh : Unit := new true 1 false.

(** The same unit as master. *)
Definition freshMaster : Unit := new true 0 true.

(** After [create(0)]. *)
Definition withActive : Unit := run 2 [CallCreate 0 true] fresh.

(** After [create(0)] and [create(1)]. *)
Definition withTwo : Unit :=
  run 2 [CallCreate 0 true; CallCreate 1 true] fresh.

(** After a snapshot from a peer that holds two plans with different
    content. *)
Definition caughtUp : Unit :=
  run 2 [Deliver (EvSyncResponse [(0, [10]); (1, [20])])] fresh.

End Examples.

(** ** The PFD instrument

    The second class of the sources, [A32NX_PFD]: what it keeps of the game
    state and when it starts its two data providers.  The collaborators
    (backplane, publishers, providers, the base class) are outside the
    sources; a call on one of them is an entry in the trace [calls], and is
    taken to return.  A call on a field that is still [undefined] throws a
    TypeError, as JavaScript does. *)

Module PFD.

Inductive Side := L | R.

(** A provider object: which [connectedCallback] made it, and for which
    side. *)
Record Provider := mkProvider { madeBy : nat; side : Side }.

(** The names under which the constructor registers with the backplane. *)
Inductive Name :=
| PfdSimvars | HEvent | ArincProvider | SimPlane | Clock | Dmc | RopRowOans
| StallWarning | Fwc.

Inductive Call :=
| AddPublisher (name : Name)
| AddInstrument (name : Name)
| SuperConnectedCallback
| BackplaneInit
| Render
| RemoveLoadingText
| SuperUpdate
| BackplaneOnUpdate
| GetGameState
| AdirsStart (p : Provider)
| FmsStartPublish (p : Provider)
| FmsOnUpdate (p : Provider).

Inductive Outcome := Returned | TypeError.

Record Instrument := mkInstrument {
  gameState : nat;
  adirsValueProvider : option Provider;
  fmsDataPublisher : option Provider;
  connections : nat;
  calls : list Call;
}.

Definition log (c : Call) (s : Instrument) : Instrument :=
  mkInstrument (gameState s) (adirsValueProvider s) (fmsDataPublisher s)
    (connections s) (calls s ++ [c]).

Definition with_gameState (g : nat) (s : Instrument) : Instrument :=
  mkInstrument g (adirsValueProvider s) (fmsDataPublisher s)
    (connections s) (calls s).

(** The constructor registers six publishers and three instruments with
    the backplane, in this order; the two providers are not yet assigned and
    [gameState] is 0. *)
Definition new : Instrument :=
  mkInstrument 0 None None 0
    [AddPublisher PfdSimvars; AddPublisher HEvent; AddInstrument ArincProvider;
     AddInstrument SimPlane; AddInstrument Clock; AddPublisher Dmc;
     AddPublisher RopRowOans; AddPublisher StallWarning; AddPublisher Fwc].

(** [getDisplayIndex() === 1 ? 'L' : 'R'] *)
Definition sideOf (displayIndex : nat) : Side :=
  if decide (displayIndex = 1) then L else R.

Definition connectedCallback (displayIndex : nat) (s : Instrument)
  : Outcome * Instrument :=
  let s := log SuperConnectedCallback s in
  let made := mkProvider (connections s) (sideOf displayIndex) in
  let s := mkInstrument (gameState s) (Some made) (Some made)
             (S (connections s)) (calls s) in
  let s := log BackplaneInit s in
  let s := log Render s in
  (Returned, log RemoveLoadingText s).

(** [reading] is what [this.getGameState()] returns if this frame asks. *)
Definition Update (reading : nat) (s : Instrument) : Outcome * Instrument :=
  let s := log SuperUpdate s in
  let s := log BackplaneOnUpdate s in
  if decide (gameState s ≠ 3) then
    let s := log GetGameState s in
    let gamestate := reading in
    if decide (gamestate = 3) then
      match adirsValueProvider s with
      | None => (TypeError, s)
      | Some adirs =>
          let s := log (AdirsStart adirs) s in
          match fmsDataPublisher s with
          | None => (TypeError, s)
          | Some fms =>
              let s := log (FmsStartPublish fms) s in
              (Returned, with_gameState gamestate s)
          end
      end
    else (Returned, with_gameState gamestate s)
  else
    match fmsDataPublisher s with
    | None => (TypeError, s)
    | Some fms => (Returned, log (FmsOnUpdate fms) s)
    end.

(** What the framework does with the instrument: attaches it, or asks for a
    frame. *)
Inductive Event :=
| Connect (displayIndex : nat)
| Frame (reading : nat).

Definition react (ev : Event) (s : Instrument) : Outcome * Instrument :=
  match ev with
  | Connect i => connectedCallback i s
  | Frame r => Update r s
  end.

Definition run (evs : list Event) (s : Instrument) : Instrument :=
  foldl (λ s ev, (react ev s).2) s evs.

Definition isAdirsStart (c : Call) : bool :=
  match c with
  | AdirsStart _ => true
  | _ => false
  end.

Definition isStartPublish (c : Call) : bool :=
  match c with
  | FmsStartPublish _ => true
  | _ => false
  end.

Definition isOnUpdate (c : Call) : bool :=
  match c with
  | FmsOnUpdate _ => true
  | _ => false
  end.

Definition isGetGameState (c : Call) : bool :=
  match c with
  | GetGameState => true
  | _ => false
  end.

Fixpoint count (f : Call → bool) (cs : list Call) : nat :=
  match cs with
  | [] => 0
  | c :: rest => (if f c then 1 else 0) + count f rest
  end.

(** How many frames a sequence of events asks for. *)
Fixpoint frames (evs : list Event) : nat :=
  match evs with
  | [] => 0
  | Frame _ :: rest => S (frames rest)
  | Connect _ :: rest => frames rest
  end.

(** What holds of the instrument between two events. *)
Definition consistent (s : Instrument) : Prop :=
  (is_Some (adirsValueProvider s) ↔ is_Some (fmsDataPublisher s)) ∧
  (gameState s = 3 → is_Some (fmsDataPublisher s)) ∧
  count isAdirsStart (calls s) = (if decide (gameState s = 3) then 1 else 0) ∧
  count isStartPublish (calls s) = (if decide (gameState s = 3) then 1 else 0) ∧
  (gameState s ≠ 3 → count isOnUpdate (calls s) = 0).

End PFD.

(** * Properties *)

(** ** Arrays *)

Section JsArrayFacts.
Context {A : Type}.
Implicit Types (arr : list (option A)) (v : option A).

Lemma slot_nil i : slot ([] : list (option A)) i = None.
Proof. reflexivity. Qed.

Lemma slot_assign_eq arr i v : slot (assign arr i v) i = v.
Proof.
  unfold slot, assign. case_decide as Hlt.
  - by rewrite list_lookup_insert_eq.
  - rewrite lookup_app_r by lia.
    rewrite lookup_app_r by (rewrite length_replicate; lia).
    rewrite length_replicate.
    by replace (i - length arr - (i - length arr)) with 0 by lia.
Qed.

Lemma slot_assign_ne arr i j v : i ≠ j → slot (assign arr i v) j = slot arr j.
Proof.
  intros Hne. unfold slot, assign. case_decide as Hlt.
  - by rewrite list_lookup_insert_ne.
  - destruct (decide (j < length arr)) as [Hj|Hj].
    + by rewrite lookup_app_l.
    + rewrite (lookup_ge_None_2 arr j) by lia.
      rewrite lookup_app_r by lia.
      destruct (decide (j - length arr < i - length arr)) as [Hk|Hk].
      * rewrite lookup_app_l by (rewrite length_replicate; lia).
        by rewrite lookup_replicate_2.
      * rewrite lookup_app_r by (rewrite length_replicate; lia).
        rewrite length_replicate.
        rewrite lookup_ge_None_2; [done|simpl; lia].
Qed.

Lemma slot_assign arr i j v :
  slot (assign arr i v) j = if decide (i = j) then v else slot arr j.
Proof.
  case_decide as Hij; [subst; apply slot_assign_eq | by apply slot_assign_ne].
Qed.
End JsArrayFacts.

(** Unfolds the monad down to matches on completions. *)
Ltac step :=
  unfold assertFlightPlanExists, assertFlightPlanDoesntExist, unlessIgnoring;
  unfold mbind, M_bind, mret, M_ret, gets, modify, throw;
  cbn [plans ignoreSync master loopback published timers syncClientID
       with_plans with_ignoreSync with_published with_timers when].

(** Runs a method through its reads of the table, given what they find. *)
Ltac reads Ha Hb :=
  repeat (first [ rewrite Ha | rewrite Hb | rewrite slot_assign_eq
                | rewrite slot_assign_ne by done ]; step).

(** ** The echo guard *)

Section ManagerFacts.
Context {FP SFP : Type} `{!FlightPlan.Ops FP SFP}.
Implicit Types (m : Manager FP SFP) (e : SyncEvent SFP) (d : nat).

Lemma unlessIgnoring_eq (c : M unit) m :
  unlessIgnoring c m = if ignoreSync m then (Normal tt, m) else c m.
Proof. step. by destruct (ignoreSync m). Qed.

(** A guarded handler does nothing while the flag is set. *)
Lemma dispatch_guarded_ignoring d e m :
  guarded e = true → ignoreSync m = true → dispatch d e m = (Normal tt, m).
Proof.
  intros Hg Hi. destruct d as [|d]; [done|].
  destruct e; try done; cbn [dispatch handler]; step; by rewrite Hi.
Qed.

(** So a publication on a guarded topic comes back to no effect: all that
    [sendEvent] leaves is the event on the bus and the flag clear. *)
Lemma sendEvent_guarded d e m :
  guarded e = true → sendEvent (dispatch d) e m = (Normal tt, broadcast e m).
Proof.
  intros Hg. unfold sendEvent, pub. step.
  destruct (loopback m); [|done].
  by rewrite dispatch_guarded_ignoring.
Qed.

Lemma when_sendEvent_guarded d notify e m :
  guarded e = true →
  when notify (sendEvent (dispatch d) e) m = (Normal tt, notified notify e m).
Proof.
  intros Hg. destruct notify; [by apply sendEvent_guarded|done].
Qed.

Lemma plans_notified notify e m : plans (notified notify e m) = plans m.
Proof. by destruct notify. Qed.

Lemma ignoreSync_notified notify e m :
  ignoreSync (notified notify e m) = if notify then false else ignoreSync m.
Proof. by destruct notify. Qed.

(** ** What each method does *)

Lemma has_slot i m : has i m = true ↔ slot (plans m) i ≠ None.
Proof. unfold has. apply bool_decide_eq_true. Qed.

Lemma has_empty i m : has i m = false ↔ slot (plans m) i = None.
Proof.
  unfold has. rewrite bool_decide_eq_false.
  destruct (slot (plans m) i); naive_solver.
Qed.

Lemma get_occupied i m p :
  slot (plans m) i = Some p → get i m = (Normal p, m).
Proof. intros Hp. unfold get. step. by rewrite !Hp. Qed.

Lemma get_empty i m :
  slot (plans m) i = None → get i m = (Thrown (SlotNotFound i), m).
Proof. intros Hp. unfold get. step. by rewrite Hp. Qed.

Lemma create_empty d i notify m :
  slot (plans m) i = None →
  create (dispatch d) i notify m =
    (Normal tt,
     notified notify (EvCreate i)
       (with_plans (assign (plans m) i (Some (FlightPlan.empty i))) m)).
Proof.
  intros Hp. unfold create. step. rewrite Hp.
  by rewrite when_sendEvent_guarded.
Qed.

Lemma create_occupied d i notify m p :
  slot (plans m) i = Some p →
  create (dispatch d) i notify m = (Thrown (SlotAlreadyOccupied i), m).
Proof. intros Hp. unfold create. step. by rewrite Hp. Qed.

Lemma delete_occupied d i notify m p :
  slot (plans m) i = Some p →
  delete (dispatch d) i notify m =
    (Normal tt,
     notified notify (EvDelete i) (with_plans (assign (plans m) i None) m)).
Proof.
  intros Hp. unfold delete. step. rewrite Hp.
  by rewrite when_sendEvent_guarded.
Qed.

Lemma delete_empty d i notify m :
  slot (plans m) i = None →
  delete (dispatch d) i notify m = (Thrown (SlotNotFound i), m).
Proof. intros Hp. unfold delete. step. by rewrite Hp. Qed.

Lemma deleteAll_eq d notify m :
  deleteAll (dispatch d) notify m =
    (Normal tt, notified notify EvDeleteAll (with_plans [] m)).
Proof. unfold deleteAll. step. by rewrite when_sendEvent_guarded. Qed.

Lemma copy_occupied d from to notify m p :
  slot (plans m) from = Some p →
  copy (dispatch d) from to notify m =
    (Normal tt,
     notified notify (EvCopy from to)
       (with_plans
          (assign (assign (plans m) to (Some (FlightPlan.clone p to))) to
             (Some (FlightPlan.incrementVersion (FlightPlan.clone p to))))
          m)).
Proof.
  intros Hp. unfold copy, get, set. step.
  reads Hp Hp.
  by rewrite when_sendEvent_guarded.
Qed.

Lemma copy_empty d from to notify m :
  slot (plans m) from = None →
  copy (dispatch d) from to notify m = (Thrown (SlotNotFound from), m).
Proof. intros Hp. unfold copy. step. by rewrite Hp. Qed.

Lemma swap_empty_a d a b notify m :
  slot (plans m) a = None →
  swap (dispatch d) a b notify m = (Thrown (SlotNotFound a), m).
Proof. intros Hp. unfold swap. step. by rewrite Hp. Qed.

Lemma swap_empty_b d a b notify m p :
  slot (plans m) a = Some p → slot (plans m) b = None →
  swap (dispatch d) a b notify m = (Thrown (SlotNotFound b), m).
Proof. intros Ha Hb. unfold swap. step. by rewrite Ha, Hb. Qed.

Lemma swap_occupied d a b notify m pa pb :
  a ≠ b → slot (plans m) a = Some pa → slot (plans m) b = Some pb →
  swap (dispatch d) a b notify m =
    (Normal tt,
     notified notify (EvSwap a b)
       (with_plans
          (assign
             (assign (assign (assign (plans m) a None) b None) a (Some pb))
             b (Some pa))
          m)).
Proof.
  intros Hne Ha Hb. unfold swap, get, delete, set. step.
  reads Ha Hb.
  by rewrite when_sendEvent_guarded.
Qed.

Lemma swap_self d a notify m p :
  slot (plans m) a = Some p →
  swap (dispatch d) a a notify m =
    (Thrown (SlotNotFound a), with_plans (assign (plans m) a None) m).
Proof.
  intros Ha. unfold swap, get, delete. step.
  by reads Ha Ha.
Qed.
End ManagerFacts.

(** ** The handlers *)

Section HandlerFacts.
Context {FP SFP : Type} `{!FlightPlan.Ops FP SFP}.
Implicit Types (m : Manager FP SFP) (e : SyncEvent SFP) (d : nat).

Lemma with_plans_same m : with_plans (plans m) m = m.
Proof. by destruct m. Qed.

Lemma set_eq i p m :
  set i p m = (Normal tt, with_plans (assign (plans m) i (Some p)) m).
Proof. done. Qed.

(** The syncResponse handler has no guard: whatever the flag, it installs
    every entry and returns. *)
Lemma syncResponse_installs d entries m :
  dispatch (S d) (EvSyncResponse entries) m =
    (Normal tt, with_plans (install entries (plans m)) m).
Proof.
  cbn [dispatch handler]. revert m.
  induction entries as [|[i f] entries IH]; intros m.
  - cbn [for_each install foldl]. by rewrite with_plans_same.
  - cbn [for_each install foldl]. unfold mbind, M_bind.
    by rewrite set_eq, IH.
Qed.

(** While the flag is set a handler touches the table at most, and
    returns. *)
Lemma dispatch_ignoring d e m :
  ignoreSync m = true → ∃ ps, dispatch d e m = (Normal tt, with_plans ps m).
Proof.
  intros Hi. destruct (guarded e) eqn:Hg.
  - exists (plans m). by rewrite dispatch_guarded_ignoring, with_plans_same.
  - destruct e; try done. destruct d as [|d].
    + exists (plans m). by rewrite with_plans_same.
    + eexists. apply syncResponse_installs.
Qed.

(** [sendEvent] always returns, with the event on the bus and the flag
    clear; the echo can have touched the table only. *)
Lemma sendEvent_returns d e m :
  ∃ ps, sendEvent (dispatch d) e m = (Normal tt, broadcast e (with_plans ps m))
        ∧ (guarded e = true → ps = plans m).
Proof.
  destruct (guarded e) eqn:Hg.
  - exists (plans m). by rewrite sendEvent_guarded, with_plans_same.
  - unfold sendEvent, pub. step. destruct (loopback m) eqn:Hl.
    + edestruct (dispatch_ignoring d e) as [ps ->]; [|by exists ps].
      done.
    + exists (plans m). by rewrite with_plans_same.
Qed.

(** With the flag clear, the handler of a mutation event is the call it
    replays. *)
Lemma handler_replays d e m :
  isMutation e = true → ignoreSync m = false →
  dispatch (S d) e m = replay (dispatch d) e m.
Proof.
  intros He Hi. destruct e; try done; cbn [dispatch handler replay];
    by rewrite unlessIgnoring_eq, Hi.
Qed.

(** *** Depth

    The nesting of deliveries is bounded: a method publishes, the echo is
    handled with the flag set, and a handler publishes nothing then.  So the
    methods do not depend on the depth at all, and the handlers are the same
    at every depth from two on. *)

Lemma sendEvent_depth d d' e m :
  sendEvent (dispatch (S d)) e m = sendEvent (dispatch (S d')) e m.
Proof.
  destruct (guarded e) eqn:Hg; [by rewrite !sendEvent_guarded|].
  by destruct e.
Qed.

Lemma create_depth d d' i notify m :
  create (dispatch d) i notify m = create (dispatch d') i notify m.
Proof.
  destruct (slot (plans m) i) as [p|] eqn:Hp.
  - by rewrite !(create_occupied _ _ _ _ p).
  - by rewrite !create_empty.
Qed.

Lemma delete_depth d d' i notify m :
  delete (dispatch d) i notify m = delete (dispatch d') i notify m.
Proof.
  destruct (slot (plans m) i) as [p|] eqn:Hp.
  - by rewrite !(delete_occupied _ _ _ _ p).
  - by rewrite !delete_empty.
Qed.

Lemma deleteAll_depth d d' notify m :
  deleteAll (dispatch d) notify m = deleteAll (dispatch d') notify m.
Proof. by rewrite !deleteAll_eq. Qed.

Lemma copy_depth d d' from to notify m :
  copy (dispatch d) from to notify m = copy (dispatch d') from to notify m.
Proof.
  destruct (slot (plans m) from) as [p|] eqn:Hp.
  - by rewrite !(copy_occupied _ _ _ _ _ p).
  - by rewrite !copy_empty.
Qed.

Lemma swap_depth d d' a b notify m :
  swap (dispatch d) a b notify m = swap (dispatch d') a b notify m.
Proof.
  destruct (slot (plans m) a) as [pa|] eqn:Ha; [|by rewrite !swap_empty_a].
  destruct (decide (a = b)) as [<-|Hne]; [by rewrite !(swap_self _ _ _ _ pa)|].
  destruct (slot (plans m) b) as [pb|] eqn:Hb.
  - by rewrite !(swap_occupied _ _ _ _ _ pa pb).
  - by rewrite !(swap_empty_b _ _ _ _ _ pa).
Qed.

Lemma dispatch_depth d e m : dispatch (2 + d) e m = dispatch 2 e m.
Proof.
  cbn [Nat.add]. destruct e; cbn [dispatch handler]; [|done|..];
    rewrite !unlessIgnoring_eq; (destruct (ignoreSync m); [done|]);
    step;
    auto using sendEvent_depth, create_depth, delete_depth, deleteAll_depth,
      copy_depth, swap_depth.
Qed.
End HandlerFacts.

(** * The mutation API *)

(** C6. If [create(i)] succeeds then right afterwards [has(i)] is true and
    [get(i)] returns an occupant (the fresh empty plan for [i]); it does
    succeed on an empty slot; and on an occupied slot it fails with
    SlotAlreadyOccupied and leaves the manager as it was. *)
Theorem create_then_has_and_get {FP SFP} `{!FlightPlan.Ops FP SFP}
    d i notify (m : Manager FP SFP) :
  (∀ m', create (dispatch d) i notify m = (Normal tt, m') →
         has i m' = true ∧ get i m' = (Normal (FlightPlan.empty i), m')) ∧
  (has i m = false → ∃ m', create (dispatch d) i notify m = (Normal tt, m')) ∧
  (has i m = true →
   create (dispatch d) i notify m = (Thrown (SlotAlreadyOccupied i), m)).
Proof.
  split; [|split].
  - intros m' Hc. destruct (slot (plans m) i) as [p|] eqn:Hp.
    + by rewrite (create_occupied _ _ _ _ p) in Hc.
    + rewrite create_empty in Hc by done. injection Hc as <-.
      assert (slot (plans (notified notify (EvCreate i)
                (with_plans (assign (plans m) i (Some (FlightPlan.empty i))) m))) i
              = Some (FlightPlan.empty i)) as Hs
        by (rewrite plans_notified; apply slot_assign_eq).
      split; [apply has_slot; by rewrite Hs | by apply get_occupied].
  - intros Hh. destruct (slot (plans m) i) as [p|] eqn:Hp.
    + apply has_empty in Hh. congruence.
    + eexists. by apply create_empty.
  - intros Hh. apply has_slot in Hh.
    destruct (slot (plans m) i) as [p|] eqn:Hp; [|done].
    by apply (create_occupied _ _ _ _ p).
Qed.

Lemma create_then_has_and_get_witness :
  (create (dispatch 2) 0 true Examples.fresh = (Normal tt, Examples.withActive) ∧
   has 0 Examples.withActive = true ∧
   get 0 Examples.withActive = (Normal (FlightPlan.empty 0), Examples.withActive)) ∧
  (has 0 Examples.withActive = true ∧
   create (dispatch 2) 0 true Examples.withActive
   = (Thrown (SlotAlreadyOccupied 0), Examples.withActive)).
Proof.
  split.
  - split; [reflexivity|].
    apply (proj1 (create_then_has_and_get 2 0 true Examples.fresh)).
    reflexivity.
  - split; [reflexivity|].
    apply (proj2 (proj2 (create_then_has_and_get 2 0 true Examples.withActive))).
    reflexivity.
Defined.

(** C4. If slot [a] or slot [b] is empty when [swap(a, b)] is called, the call
    fails with SlotNotFound, naming an empty one of the two, and the manager
    is left exactly as it was: no slot is written.  (Holds for [a = b] too.) *)
Theorem swap_fails_before_mutating {FP SFP} `{!FlightPlan.Ops FP SFP}
    d a b notify (m : Manager FP SFP) :
  slot (plans m) a = None ∨ slot (plans m) b = None →
  ∃ i, (i = a ∨ i = b) ∧ slot (plans m) i = None ∧
       swap (dispatch d) a b notify m = (Thrown (SlotNotFound i), m).
Proof.
  intros Hab. destruct (slot (plans m) a) as [pa|] eqn:Ha.
  - destruct Hab as [|Hb]; [done|].
    exists b. split_and!; [by right|done|by apply (swap_empty_b _ _ _ _ _ pa)].
  - exists a. split_and!; [by left|done|by apply swap_empty_a].
Qed.

Lemma swap_fails_before_mutating_witness :
  (slot (plans Examples.withActive) 0 = None ∨
   slot (plans Examples.withActive) 1 = None) ∧
  ∃ i, (i = 0 ∨ i = 1) ∧ slot (plans Examples.withActive) i = None ∧
       swap (dispatch 2) 0 1 true Examples.withActive
       = (Thrown (SlotNotFound i), Examples.withActive).
Proof.
  split; [right; reflexivity|].
  apply (swap_fails_before_mutating 2 0 1 true Examples.withActive).
  right; reflexivity.
Defined.

(** C8. On an occupied slot [a], [swap(a, a)] passes both assertions, then
    throws SlotNotFound from its second internal [delete], and leaves slot
    [a] empty: the occupant is lost. *)
Theorem swap_same_index_loses_plan {FP SFP} `{!FlightPlan.Ops FP SFP}
    d a notify (m : Manager FP SFP) p :
  slot (plans m) a = Some p →
  (assertFlightPlanExists a ;; assertFlightPlanExists a) m = (Normal tt, m) ∧
  ∃ m', swap (dispatch d) a a notify m = (Thrown (SlotNotFound a), m') ∧
        delete (dispatch d) a false m = (Normal tt, m') ∧
        delete (dispatch d) a false m' = (Thrown (SlotNotFound a), m') ∧
        slot (plans m') a = None ∧
        has a m' = false ∧
        published m' = published m.
Proof.
  intros Ha. split; [step; by reads Ha Ha|].
  exists (with_plans (assign (plans m) a None) m).
  assert (slot (plans (with_plans (assign (plans m) a None) m)) a = None) as Hs
    by apply slot_assign_eq.
  split_and!.
  - by apply (swap_self _ _ _ _ p).
  - by rewrite (delete_occupied d a false m p).
  - by apply delete_empty.
  - done.
  - by apply has_empty.
  - done.
Qed.

Lemma swap_same_index_loses_plan_witness :
  slot (plans Examples.withActive) 0 = Some (FlightPlan.empty 0) ∧
  ∃ m', swap (dispatch 2) 0 0 true Examples.withActive
        = (Thrown (SlotNotFound 0), m') ∧ has 0 m' = false.
Proof.
  split; [reflexivity|].
  destruct (swap_same_index_loses_plan 2 0 true Examples.withActive
              (FlightPlan.empty 0) eq_refl) as [_ [m' (Hs & _ & _ & _ & Hh & _)]].
  exists m'. split; [exact Hs|exact Hh].
Defined.

(** C5, as written, fails when source and target are the same slot: the
    source occupant is not left in place, the clone takes its slot.  Here
    slot 0 holds a plan at version 0 before [copy(0, 0)] and a plan at
    version 1 after it. *)
Lemma self_copy_replaces_source :
  slot (plans Examples.withActive) 0 = Some (SimplePlan.mk 0 0 []) ∧
  ∃ m', copy (dispatch 2) 0 0 true Examples.withActive = (Normal tt, m') ∧
        slot (plans m') 0 = Some (SimplePlan.mk 0 1 []) ∧
        slot (plans m') 0 ≠ slot (plans Examples.withActive) 0.
Proof.
  split; [reflexivity|]. eexists. split; [reflexivity|]. split; [reflexivity|].
  cbv. discriminate.
Qed.

(** C5, amended. [copy(s, t)] fails with SlotNotFound when slot [s] is empty,
    leaving the manager unchanged; when slot [s] holds [p] it succeeds
    whatever slot [t] holds, and slot [t] then holds the clone of [p] tagged
    [t] with its version incremented (one above [p]'s); when [t] differs from
    [s] the source occupant is left in place. *)
Theorem copy_installs_clone {FP SFP} `{!FlightPlan.Ops FP SFP}
    d s t notify (m : Manager FP SFP) :
  (slot (plans m) s = None →
   copy (dispatch d) s t notify m = (Thrown (SlotNotFound s), m)) ∧
  (∀ p, slot (plans m) s = Some p →
     ∃ m', copy (dispatch d) s t notify m = (Normal tt, m') ∧
           slot (plans m') t
           = Some (FlightPlan.incrementVersion (FlightPlan.clone p t)) ∧
           FlightPlan.index (FlightPlan.incrementVersion (FlightPlan.clone p t)) = t ∧
           FlightPlan.version (FlightPlan.incrementVersion (FlightPlan.clone p t))
           = S (FlightPlan.version p) ∧
           (s ≠ t → slot (plans m') s = Some p)).
Proof.
  split; [apply copy_empty|]. intros p Hp.
  eexists. split; [by apply copy_occupied|].
  rewrite plans_notified. cbn [plans with_plans]. split_and!.
  - apply slot_assign_eq.
  - by rewrite FlightPlan.index_incrementVersion, FlightPlan.index_clone.
  - by rewrite FlightPlan.version_incrementVersion, FlightPlan.version_clone.
  - intros Hne. by rewrite !slot_assign_ne.
Qed.

Lemma copy_installs_clone_witness :
  (slot (plans Examples.withActive) 1 = None ∧
   copy (dispatch 2) 1 0 true Examples.withActive
   = (Thrown (SlotNotFound 1), Examples.withActive)) ∧
  (slot (plans Examples.withActive) 0 = Some (SimplePlan.mk 0 0 []) ∧
   ∃ m', copy (dispatch 2) 0 3 true Examples.withActive = (Normal tt, m') ∧
         slot (plans m') 3 = Some (SimplePlan.mk 3 1 []) ∧
         slot (plans m') 0 = Some (SimplePlan.mk 0 0 [])).
Proof.
  split.
  - split; [reflexivity|].
    apply (proj1 (copy_installs_clone 2 1 0 true Examples.withActive)).
    reflexivity.
  - split; [reflexivity|].
    destruct (proj2 (copy_installs_clone 2 0 3 true Examples.withActive)
                (SimplePlan.mk 0 0 []) eq_refl) as [m' (Hc & Ht & _ & _ & Hs)].
    exists m'. split; [exact Hc|]. split; [exact Ht|]. apply Hs. discriminate.
Defined.

(** C9. On an occupied slot [i], [copy(i, i)] succeeds and replaces the
    occupant [p] by its own clone, tagged [i] again and one version above
    [p]; every other slot is as before. *)
Theorem copy_onto_itself {FP SFP} `{!FlightPlan.Ops FP SFP}
    d i notify (m : Manager FP SFP) p :
  slot (plans m) i = Some p →
  ∃ m', copy (dispatch d) i i notify m = (Normal tt, m') ∧
        slot (plans m') i
        = Some (FlightPlan.incrementVersion (FlightPlan.clone p i)) ∧
        FlightPlan.index (FlightPlan.incrementVersion (FlightPlan.clone p i)) = i ∧
        FlightPlan.version (FlightPlan.incrementVersion (FlightPlan.clone p i))
        = S (FlightPlan.version p) ∧
        (∀ j, j ≠ i → slot (plans m') j = slot (plans m) j).
Proof.
  intros Hp. eexists. split; [by apply copy_occupied|].
  rewrite plans_notified. cbn [plans with_plans]. split_and!.
  - apply slot_assign_eq.
  - by rewrite FlightPlan.index_incrementVersion, FlightPlan.index_clone.
  - by rewrite FlightPlan.version_incrementVersion, FlightPlan.version_clone.
  - intros j Hne. by rewrite !slot_assign_ne.
Qed.

Lemma copy_onto_itself_witness :
  slot (plans Examples.withTwo) 1 = Some (SimplePlan.mk 1 0 []) ∧
  ∃ m', copy (dispatch 2) 1 1 true Examples.withTwo = (Normal tt, m') ∧
        slot (plans m') 1 = Some (SimplePlan.mk 1 1 []) ∧
        slot (plans m') 0 = slot (plans Examples.withTwo) 0.
Proof.
  split; [reflexivity|].
  destruct (copy_onto_itself 2 1 true Examples.withTwo (SimplePlan.mk 1 0 [])
              eq_refl) as [m' (Hc & Hi & _ & _ & Hj)].
  exists m'. split; [exact Hc|]. split; [exact Hi|]. apply Hj. discriminate.
Defined.

(** C10. A successful [create(i)] or [delete(i)] writes slot [i] only: every
    other slot holds what it held, or is empty as it was.  When the call
    notifies (the default) the flag is clear on return; a call that does not
    notify leaves the flag as it found it, so clear again when it was. *)
Theorem create_delete_frame {FP SFP} `{!FlightPlan.Ops FP SFP}
    d i notify (m m' : Manager FP SFP) :
  create (dispatch d) i notify m = (Normal tt, m') ∨
  delete (dispatch d) i notify m = (Normal tt, m') →
  (∀ j, j ≠ i → slot (plans m') j = slot (plans m) j) ∧
  ignoreSync m' = (if notify then false else ignoreSync m) ∧
  (notify = true ∨ ignoreSync m = false → ignoreSync m' = false).
Proof.
  intros Hop.
  assert (∃ v, m' = notified notify (EvCreate i) (with_plans (assign (plans m) i v) m)
             ∨ m' = notified notify (EvDelete i) (with_plans (assign (plans m) i v) m))
    as [v Hm'].
  { destruct (slot (plans m) i) as [p|] eqn:Hp; destruct Hop as [Hc|Hd].
    - by rewrite (create_occupied _ _ _ _ p) in Hc.
    - rewrite (delete_occupied _ _ _ _ p) in Hd by done. injection Hd as <-. eauto.
    - rewrite create_empty in Hc by done. injection Hc as <-. eauto.
    - by rewrite delete_empty in Hd. }
  assert (ignoreSync m' = (if notify then false else ignoreSync m)) as Hflag
    by (destruct Hm' as [-> | ->]; by rewrite ignoreSync_notified).
  split_and!.
  - intros j Hne. destruct Hm' as [-> | ->]; rewrite plans_notified;
      by apply slot_assign_ne.
  - done.
  - rewrite Hflag. by intros [-> | ->]; [|destruct notify].
Qed.

Lemma create_delete_frame_witness :
  (create (dispatch 2) 1 true Examples.withActive = (Normal tt, Examples.withTwo) ∨
   delete (dispatch 2) 1 true Examples.withActive = (Normal tt, Examples.withTwo)) ∧
  slot (plans Examples.withTwo) 0 = slot (plans Examples.withActive) 0 ∧
  ignoreSync Examples.withTwo = false.
Proof.
  assert (create (dispatch 2) 1 true Examples.withActive = (Normal tt, Examples.withTwo) ∨
          delete (dispatch 2) 1 true Examples.withActive = (Normal tt, Examples.withTwo))
    as Hop by (left; reflexivity).
  split; [exact Hop|].
  destruct (create_delete_frame 2 1 true _ _ Hop) as (Hframe & _ & Hflag).
  split; [apply Hframe; discriminate | apply Hflag; left; reflexivity].
Defined.

(** * The tagging invariant *)

Section Tagging.
Context {FP SFP : Type} `{!FlightPlan.Ops FP SFP}.
Implicit Types (m : Manager FP SFP) (ps : list (option FP)) (d : nat).

Lemma wellTagged_nil : wellTagged ([] : list (option FP)).
Proof. by intros i p. Qed.

Lemma wellTagged_assign ps i v :
  wellTagged ps → (∀ p, v = Some p → FlightPlan.index p = i) →
  wellTagged (assign ps i v).
Proof.
  intros Hps Hv j p. rewrite slot_assign. case_decide as Hij.
  - subst j. apply Hv.
  - apply Hps.
Qed.

Lemma wellTagged_install entries ps :
  wellTagged ps → wellTagged (install entries ps).
Proof.
  revert ps. induction entries as [|[i f] entries IH]; intros ps Hps; [done|].
  cbn [install foldl]. apply IH, wellTagged_assign; [done|].
  intros p [= <-]. apply FlightPlan.index_fromSerializedFlightPlan.
Qed.

(** Every write but those of [swap] stores a plan made for the slot it goes
    to. *)
Lemma create_keeps_tags d i notify m :
  wellTagged (plans m) → wellTagged (plans (create (dispatch d) i notify m).2).
Proof.
  intros Hw. destruct (slot (plans m) i) as [p|] eqn:Hp.
  - by rewrite (create_occupied _ _ _ _ p).
  - rewrite create_empty by done. cbn [snd]. rewrite plans_notified.
    apply wellTagged_assign; [done|]. intros p [= <-].
    apply FlightPlan.index_empty.
Qed.

Lemma delete_keeps_tags d i notify m :
  wellTagged (plans m) → wellTagged (plans (delete (dispatch d) i notify m).2).
Proof.
  intros Hw. destruct (slot (plans m) i) as [p|] eqn:Hp.
  - rewrite (delete_occupied _ _ _ _ p) by done. cbn [snd].
    rewrite plans_notified. by apply wellTagged_assign.
  - by rewrite delete_empty.
Qed.

Lemma deleteAll_keeps_tags d notify m :
  wellTagged (plans (deleteAll (dispatch d) notify m).2).
Proof.
  rewrite deleteAll_eq. cbn [snd]. rewrite plans_notified. apply wellTagged_nil.
Qed.

Lemma copy_keeps_tags d from to notify m :
  wellTagged (plans m) →
  wellTagged (plans (copy (dispatch d) from to notify m).2).
Proof.
  intros Hw. destruct (slot (plans m) from) as [p|] eqn:Hp.
  - rewrite (copy_occupied _ _ _ _ _ p) by done. cbn [snd].
    rewrite plans_notified. cbn [plans with_plans].
    apply wellTagged_assign; [apply wellTagged_assign; [done|]|].
    + intros q [= <-]. apply FlightPlan.index_clone.
    + intros q [= <-].
      by rewrite FlightPlan.index_incrementVersion, FlightPlan.index_clone.
  - by rewrite copy_empty.
Qed.

Lemma syncResponse_keeps_tags d entries m :
  wellTagged (plans m) →
  wellTagged (plans (dispatch (S d) (EvSyncResponse entries) m).2).
Proof.
  intros Hw. rewrite syncResponse_installs. by apply wellTagged_install.
Qed.

(** [swap] of two different occupied slots always breaks the invariant: the
    plan it stores at [a] still reports [b]. *)
Lemma swap_breaks_tags d a b notify m pa pb :
  a ≠ b → slot (plans m) a = Some pa → slot (plans m) b = Some pb →
  wellTagged (plans m) →
  (swap (dispatch d) a b notify m).1 = Normal tt ∧
  slot (plans (swap (dispatch d) a b notify m).2) a = Some pb ∧
  slot (plans (swap (dispatch d) a b notify m).2) b = Some pa ∧
  ¬ wellTagged (plans (swap (dispatch d) a b notify m).2).
Proof.
  intros Hne Ha Hb Hw. rewrite (swap_occupied _ _ _ _ _ pa pb) by done.
  cbn [fst snd]. rewrite plans_notified. cbn [plans with_plans].
  assert (slot (assign (assign (assign (assign (plans m) a None) b None) a
                          (Some pb)) b (Some pa)) a = Some pb) as Hsa
    by (rewrite slot_assign_ne by done; apply slot_assign_eq).
  split_and!; [done|done|apply slot_assign_eq|].
  intros Hw'. apply Hne. rewrite <-(Hw' a pb Hsa). by apply Hw.
Qed.
End Tagging.

(** * The sync protocol handler *)

(** C1. The claim fails on the syncResponse topic, the one handler without
    the guard.  First part: delivered while the flag is set, a snapshot
    response is installed into an empty table.  Second part, from a state the
    API reaches: a unit that caught up from a peer and swapped its two plans
    answers a snapshot request; its own response comes back inside
    [sendEvent], flag set, and is applied, which puts the two plans back
    where they were before the swap. *)
Theorem syncResponse_applied_while_ignoring :
  (let m := with_ignoreSync true Examples.fresh in
   ignoreSync m = true ∧ plans m = [] ∧
   dispatch 2 (EvSyncResponse [(0, [10])]) m
   = (Normal tt, with_plans [Some (SimplePlan.mk 0 0 [10])] m)) ∧
  (let m := run 2 [CallSwap 0 1 true] Examples.caughtUp in
   let response := EvSyncResponse (plansRecord (plans m)) in
   let sending := with_published (published m ++ [response])
                    (with_ignoreSync true m) in
   let swapped := [Some (SimplePlan.mk 1 0 [20]); Some (SimplePlan.mk 0 0 [10])] in
   let restored := [Some (SimplePlan.mk 0 0 [10]); Some (SimplePlan.mk 1 0 [20])] in
   plans m = swapped ∧
   dispatch 2 EvSyncRequest m = sendEvent (dispatch 1) response m ∧
   ignoreSync sending = true ∧ plans sending = swapped ∧
   dispatch 1 response sending = (Normal tt, with_plans restored sending) ∧
   dispatch 2 EvSyncRequest m
   = (Normal tt, broadcast response (with_plans restored m))).
Proof. repeat split. Qed.

(** C2, as written, fails: a replay that fails is not swallowed.  Delivered
    with the flag clear, a delete event for an empty slot and a create event
    for an occupied slot make the handler throw. *)
Lemma failed_replay_is_thrown :
  (ignoreSync Examples.fresh = false ∧
   dispatch 2 (EvDelete 0) Examples.fresh
   = (Thrown (SlotNotFound 0), Examples.fresh)) ∧
  (ignoreSync Examples.withActive = false ∧
   dispatch 2 (EvCreate 0) Examples.withActive
   = (Thrown (SlotAlreadyOccupied 0), Examples.withActive)).
Proof. repeat split. Qed.

(** C2, amended. For a mutation event delivered with the flag clear, when
    the replayed call of the mutation API fails, the handler does not catch
    the failure: it throws the same error to the bus that called it, the
    manager is in the state the failed call left, and nothing has been
    published. *)
Theorem failed_replay_propagates {FP SFP} `{!FlightPlan.Ops FP SFP}
    d e (m m' : Manager FP SFP) err :
  isMutation e = true → ignoreSync m = false →
  replay (dispatch d) e m = (Thrown err, m') →
  dispatch (S d) e m = (Thrown err, m') ∧
  published m' = published m ∧ ignoreSync m' = false.
Proof.
  intros He Hi Hr. split; [by rewrite handler_replays|].
  destruct e as [| |i|i| |s t|a b]; [done|done|..]; cbn [replay] in Hr.
  - destruct (slot (plans m) i) as [p|] eqn:Hp.
    + rewrite (create_occupied _ _ _ _ p) in Hr by done. by injection Hr as _ <-.
    + by rewrite create_empty in Hr.
  - destruct (slot (plans m) i) as [p|] eqn:Hp.
    + by rewrite (delete_occupied _ _ _ _ p) in Hr.
    + rewrite delete_empty in Hr by done. by injection Hr as _ <-.
  - by rewrite deleteAll_eq in Hr.
  - destruct (slot (plans m) s) as [p|] eqn:Hp.
    + by rewrite (copy_occupied _ _ _ _ _ p) in Hr.
    + rewrite copy_empty in Hr by done. by injection Hr as _ <-.
  - destruct (slot (plans m) a) as [pa|] eqn:Ha.
    2:{ rewrite swap_empty_a in Hr by done. by injection Hr as _ <-. }
    destruct (decide (a = b)) as [<-|Hne].
    { rewrite (swap_self _ _ _ _ pa) in Hr by done. by injection Hr as _ <-. }
    destruct (slot (plans m) b) as [pb|] eqn:Hb.
    + by rewrite (swap_occupied _ _ _ _ _ pa pb) in Hr.
    + rewrite (swap_empty_b _ _ _ _ _ pa) in Hr by done. by injection Hr as _ <-.
Qed.

Lemma failed_replay_propagates_witness :
  (isMutation (EvDelete 0 : SyncEvent (list nat)) = true ∧
   ignoreSync Examples.fresh = false ∧
   replay (dispatch 1) (EvDelete 0) Examples.fresh
   = (Thrown (SlotNotFound 0), Examples.fresh)) ∧
  dispatch 2 (EvDelete 0) Examples.fresh
  = (Thrown (SlotNotFound 0), Examples.fresh) ∧
  published Examples.fresh = published Examples.fresh ∧
  ignoreSync Examples.fresh = false.
Proof.
  split; [repeat split|].
  apply (failed_replay_propagates 1 (EvDelete 0) Examples.fresh Examples.fresh
           (SlotNotFound 0)); reflexivity.
Defined.

(** C3. [swap] stores each captured plan at the other index as it is, so
    after [swap(0, 1)] on a well-tagged table slot 0 holds a plan that reports
    index 1 and slot 1 a plan that reports index 0.  The syncRequest handler,
    which files each plan under the index it reports, then answers with the
    table as it was before the swap. *)
Theorem swap_keeps_old_tags :
  wellTagged (plans Examples.caughtUp) ∧
  ∃ m', swap (dispatch 2) 0 1 true Examples.caughtUp = (Normal tt, m') ∧
        slot (plans m') 0 = Some (SimplePlan.mk 1 0 [20]) ∧
        slot (plans m') 1 = Some (SimplePlan.mk 0 0 [10]) ∧
        ¬ wellTagged (plans m') ∧
        plansRecord (plans m') = plansRecord (plans Examples.caughtUp).
Proof.
  split.
  - intros [|[|i]] p Hp; vm_compute in Hp.
    + by injection Hp as <-.
    + by injection Hp as <-.
    + by destruct i.
  - eexists. split; [reflexivity|]. split_and!; try reflexivity.
    intros Hw. by specialize (Hw 0 _ eq_refl).
Qed.

(** * Bootstrap *)

Section Steady.
Context {FP SFP : Type} `{!FlightPlan.Ops FP SFP}.
Implicit Types (m : Manager FP SFP) (e : SyncEvent SFP) (d : nat).
Local Abbreviation Method := (@M FP SFP).
Local Abbreviation preserves := (@FlightPlanManager.preserves FP SFP _).

Lemma steady_refl m : steady m m.
Proof. done. Qed.

Lemma steady_trans m1 m2 m3 : steady m1 m2 → steady m2 m3 → steady m1 m3.
Proof.
  unfold steady. intros (-> & -> & -> & ?) (-> & -> & -> & ?).
  split_and!; auto.
Qed.

Lemma countRequests_app (evs evs' : list (SyncEvent SFP)) :
  countRequests (evs ++ evs') = countRequests evs + countRequests evs'.
Proof. induction evs as [|e evs IH]; cbn; [done|]. rewrite IH. lia. Qed.

Lemma preserves_ret {A} (a : A) : preserves (mret a : Method A).
Proof. intros m. apply steady_refl. Qed.

Lemma preserves_bind {A B} (c : Method A) (f : A → Method B) :
  preserves c → (∀ a, preserves (f a)) → preserves (c ≫= f).
Proof.
  intros Hc Hf m. unfold mbind, M_bind. specialize (Hc m).
  destruct (c m) as [[a|err] m1]; [|done].
  eapply steady_trans; [exact Hc|apply Hf].
Qed.

Lemma preserves_plans (f : Manager FP SFP → list (option FP)) :
  preserves (modify (λ m, with_plans (f m) m)).
Proof. done. Qed.

Lemma preserves_assertExists i : preserves (assertFlightPlanExists i).
Proof. intros m. step. by destruct (slot _ _). Qed.

Lemma preserves_assertDoesntExist i :
  preserves (assertFlightPlanDoesntExist i).
Proof. intros m. step. by destruct (slot _ _). Qed.

Lemma preserves_get i : preserves (get i).
Proof.
  apply preserves_bind; [apply preserves_assertExists|].
  intros _ m. step. by destruct (slot _ _).
Qed.

Lemma preserves_set i p : preserves (set i p).
Proof. done. Qed.

Lemma preserves_when b (c : Method unit) : preserves c → preserves (when b c).
Proof. destruct b; [done|]. intros _. apply preserves_ret. Qed.

Lemma preserves_unlessIgnoring (c : Method unit) :
  preserves c → preserves (unlessIgnoring c).
Proof.
  intros Hc m. rewrite unlessIgnoring_eq.
  destruct (ignoreSync m); [done|apply Hc].
Qed.

Lemma preserves_for_each {A} (xs : list A) (body : A → Method unit) :
  (∀ x, preserves (body x)) → preserves (for_each xs body).
Proof.
  intros Hb. induction xs as [|x xs IH]; cbn [for_each].
  - apply preserves_ret.
  - by apply preserves_bind.
Qed.

(** Publishing anything but a snapshot request is steady. *)
Lemma preserves_sendEvent d e :
  isSyncRequest e = false → preserves (sendEvent (dispatch d) e).
Proof.
  intros He m. destruct (sendEvent_returns d e m) as [ps [-> _]].
  split_and!; [done|done| |done]. cbn. rewrite countRequests_app. cbn.
  rewrite He. lia.
Qed.

Create HintDb steady.

Local Hint Resolve preserves_ret preserves_plans preserves_assertExists
  preserves_assertDoesntExist preserves_get preserves_set preserves_when
  preserves_unlessIgnoring preserves_sendEvent : steady.

Ltac steadily :=
  lazymatch goal with
  | |- FlightPlanManager.preserves (sendEvent _ _) =>
      by apply preserves_sendEvent
  | |- FlightPlanManager.preserves (mbind _ _) =>
      apply preserves_bind; [steadily | intros ?; steadily]
  | |- FlightPlanManager.preserves (when _ _) =>
      apply preserves_when; steadily
  | |- _ => auto with steady
  end.

Lemma preserves_create d i notify : preserves (create (dispatch d) i notify).
Proof. unfold create. steadily. Qed.

Lemma preserves_delete d i notify : preserves (delete (dispatch d) i notify).
Proof. unfold delete. steadily. Qed.

Lemma preserves_deleteAll d notify : preserves (deleteAll (dispatch d) notify).
Proof. unfold deleteAll. steadily. Qed.

Lemma preserves_copy d from to notify :
  preserves (copy (dispatch d) from to notify).
Proof. unfold copy. steadily. Qed.

Lemma preserves_swap d a b notify : preserves (swap (dispatch d) a b notify).
Proof. unfold swap. steadily; apply preserves_delete. Qed.

(** No handler publishes a snapshot request: the syncRequest handler
    answers with a response, the others publish nothing. *)
Lemma preserves_dispatch d e : preserves (dispatch d e).
Proof.
  destruct d as [|d]; [apply preserves_ret|]. cbn [dispatch].
  destruct e; cbn [handler].
  - apply preserves_unlessIgnoring. intros m. step.
    exact (preserves_sendEvent d (EvSyncResponse (plansRecord (plans m)))
             eq_refl m).
  - apply preserves_for_each. intros [i f]. apply preserves_set.
  - apply preserves_unlessIgnoring, preserves_create.
  - apply preserves_unlessIgnoring, preserves_delete.
  - apply preserves_unlessIgnoring, preserves_deleteAll.
  - apply preserves_unlessIgnoring, preserves_copy.
  - apply preserves_unlessIgnoring, preserves_swap.
Qed.

Lemma bootstrapInv_new lb id mstr :
  bootstrapInv (new lb id mstr : Manager FP SFP).
Proof.
  split; destruct mstr; cbn; try done.
  - by intros tm ?%elem_of_nil.
  - by intros tm ->%list_elem_of_singleton.
Qed.

Lemma bootstrapInv_steady m m' : steady m m' → bootstrapInv m → bootstrapInv m'.
Proof.
  intros (Hm & Ht & Hc & _) [Hsum Htm]. split; by rewrite ?Hm, ?Ht, ?Hc.
Qed.

Lemma bootstrapInv_react d st m :
  bootstrapInv m → bootstrapInv (react d st m).2 ∧ master (react d st m).2 = master m.
Proof.
  intros Hinv.
  assert (∀ c : Method unit, preserves c →
            bootstrapInv (c m).2 ∧ master (c m).2 = master m) as Hst.
  { intros c Hc. split; [by eapply bootstrapInv_steady|apply Hc]. }
  destruct st as [i n|i n|n|f t n|a b n|e|k]; cbn [react].
  - apply Hst, preserves_create.
  - apply Hst, preserves_delete.
  - apply Hst, preserves_deleteAll.
  - apply Hst, preserves_copy.
  - apply Hst, preserves_swap.
  - apply Hst, preserves_dispatch.
  - destruct (timers m !! k) as [tm|] eqn:Hk; [|done].
    destruct Hinv as [Hsum Htm].
    assert (tm = mkTimer 5000 EvSyncRequest) as ->
      by (apply Htm; by eapply list_elem_of_lookup_2).
    cbn [sends]. rewrite sendEvent_guarded by done.
    pose proof (lookup_lt_Some _ _ _ Hk) as Hlt.
    split; [split|done]; cbn.
    + rewrite countRequests_app, length_app, length_take, length_drop. cbn.
      destruct (master m); lia.
    + intros tm [Hin|Hin]%elem_of_app; apply Htm.
      * by eapply subseteq_take.
      * by eapply subseteq_drop.
Qed.

Lemma bootstrapInv_run d sts m :
  bootstrapInv m → bootstrapInv (run d sts m) ∧ master (run d sts m) = master m.
Proof.
  revert m. induction sts as [|st sts IH]; intros m Hinv; [done|].
  cbn [run foldl]. destruct (bootstrapInv_react d st m Hinv) as [Hinv' Hm].
  destruct (IH _ Hinv') as [Hinv'' Hm']. split; [done|]. by rewrite <-Hm.
Qed.
(** Between two stimuli the flag is clear: it is set only inside
    [sendEvent], which clears it before it returns. *)
Lemma flagClear_react d st m :
  ignoreSync m = false → ignoreSync (react d st m).2 = false.
Proof.
  intros Hi.
  assert (∀ c : Method unit, preserves c → ignoreSync (c m).2 = false) as Hst.
  { intros c Hc. by apply (Hc m). }
  destruct st as [i n|i n|n|f t n|a b n|e|k]; cbn [react].
  - apply Hst, preserves_create.
  - apply Hst, preserves_delete.
  - apply Hst, preserves_deleteAll.
  - apply Hst, preserves_copy.
  - apply Hst, preserves_swap.
  - apply Hst, preserves_dispatch.
  - destruct (timers m !! k) as [tm|]; [|done].
    by destruct (sendEvent_returns d (sends tm)
                   (with_timers (take k (timers m) ++ drop (S k) (timers m)) m))
      as [ps [-> _]].
Qed.

(** X19. Between any two stimuli of a unit's life the flag is clear:
    whatever calls, deliveries and timer firings came before, those that
    threw included, [ignoreSync] is false when the next one starts.  The flag
    is set only inside [sendEvent], and nothing thrown leaves [sendEvent]. *)
Lemma flagClear_run d sts lb id mstr :
  ignoreSync (run d sts (new lb id mstr : Manager FP SFP)) = false.
Proof.
  assert (∀ m : Manager FP SFP,
            ignoreSync m = false → ignoreSync (run d sts m) = false) as Hrun.
  { induction sts as [|st sts IH]; intros m Hi; [done|].
    cbn [run foldl]. by apply IH, flagClear_react. }
  by apply Hrun.
Qed.
End Steady.

(** C7. The constructor of a unit that is not master arms exactly one timer,
    of 5000 ms, whose callback broadcasts a snapshot request; the constructor
    of a master arms none.  Through any sequence of API calls, deliveries and
    timer firings, the requests a unit has published plus its pending timers
    number one for a unit that is not master and zero for a master: nothing
    re-arms the timer, and a master never publishes a snapshot request.  A
    timer that is pending is that one timer, and firing it publishes the
    request and leaves no timer. *)
Theorem snapshot_request_once {FP SFP} `{!FlightPlan.Ops FP SFP}
    d lb id mstr (sts : list (Stimulus SFP)) :
  let m0 : Manager FP SFP := new lb id mstr in
  let m := run d sts m0 in
  timers m0 = (if mstr then [] else [mkTimer 5000 EvSyncRequest]) ∧
  published m0 = [] ∧
  countRequests (published m) + length (timers m) = (if mstr then 0 else 1) ∧
  (mstr = true → countRequests (published m) = 0 ∧ timers m = []) ∧
  (∀ k tm, timers m !! k = Some tm →
     tm = mkTimer 5000 EvSyncRequest ∧
     react d (Fire k) m
     = (Normal tt, broadcast EvSyncRequest (with_timers [] m))).
Proof.
  intros m0 m.
  destruct (bootstrapInv_run d sts m0 (bootstrapInv_new lb id mstr))
    as [[Hsum Htm] Hmaster].
  fold m in Hsum, Htm, Hmaster. change (master m0) with mstr in Hmaster.
  rewrite Hmaster in Hsum.
  split_and!; [done..| |].
  - intros ->. split; [lia|]. apply length_zero_iff_nil. lia.
  - intros k tm Hk.
    assert (tm = mkTimer 5000 EvSyncRequest) as ->
      by (apply Htm; by eapply list_elem_of_lookup_2).
    split; [done|].
    pose proof (lookup_lt_Some _ _ _ Hk) as Hlt.
    assert (length (timers m) = 1) as Hlen by (destruct mstr; lia).
    assert (k = 0) as -> by lia.
    cbn [react]. rewrite Hk. cbn [sends].
    rewrite sendEvent_guarded by done.
    destruct (timers m) as [|tm0 [|tm1 tms]]; by try done.
Qed.

Lemma snapshot_request_once_witness :
  timers Examples.freshMaster = [] ∧
  countRequests
    (published (run 2 [Deliver EvSyncRequest; CallCreate 0 true; Fire 0]
                  Examples.freshMaster)) = 0 ∧
  react 2 (Fire 0) Examples.withActive
  = (Normal tt, broadcast EvSyncRequest (with_timers [] Examples.withActive)).
Proof.
  split; [reflexivity|]. split.
  - destruct (snapshot_request_once 2 true 0 true
                [Deliver EvSyncRequest; CallCreate 0 true; Fire 0])
      as (_ & _ & _ & Hmaster & _).
    exact (proj1 (Hmaster eq_refl)).
  - destruct (snapshot_request_once 2 true 1 false [CallCreate 0 true])
      as (_ & _ & _ & _ & Hfire).
    exact (proj2 (Hfire 0 (mkTimer 5000 EvSyncRequest) eq_refl)).
Defined.

(** * Further properties of the mutation API *)

(** X1. [delete(i)] on an empty slot fails with SlotNotFound and leaves the
    manager as it was.  On an occupied slot it succeeds, and then [has(i)] is
    false, [get(i)] fails with SlotNotFound, and a second [delete(i)] fails
    the same way: deleting is not idempotent. *)
Theorem delete_then_gone {FP SFP} `{!FlightPlan.Ops FP SFP}
    d i notify (m : Manager FP SFP) :
  (slot (plans m) i = None →
   delete (dispatch d) i notify m = (Thrown (SlotNotFound i), m)) ∧
  (∀ p, slot (plans m) i = Some p →
     ∃ m', delete (dispatch d) i notify m = (Normal tt, m') ∧
           has i m' = false ∧
           get i m' = (Thrown (SlotNotFound i), m') ∧
           delete (dispatch d) i notify m' = (Thrown (SlotNotFound i), m')).
Proof.
  split; [apply delete_empty|]. intros p Hp.
  eexists. split; [by apply (delete_occupied _ _ _ _ p)|].
  assert (slot (plans (notified notify (EvDelete i)
            (with_plans (assign (plans m) i None) m))) i = None) as Hs
    by (rewrite plans_notified; apply slot_assign_eq).
  split_and!; [by apply has_empty|by apply get_empty|by apply delete_empty].
Qed.

Lemma delete_then_gone_witness :
  (slot (plans Examples.fresh) 0 = None ∧
   delete (dispatch 2) 0 true Examples.fresh
   = (Thrown (SlotNotFound 0), Examples.fresh)) ∧
  (slot (plans Examples.withActive) 0 = Some (SimplePlan.mk 0 0 []) ∧
   ∃ m', delete (dispatch 2) 0 true Examples.withActive = (Normal tt, m') ∧
         has 0 m' = false).
Proof.
  split.
  - split; [reflexivity|].
    apply (proj1 (delete_then_gone 2 0 true Examples.fresh)). reflexivity.
  - split; [reflexivity|].
    destruct (proj2 (delete_then_gone 2 0 true Examples.withActive)
                (SimplePlan.mk 0 0 []) eq_refl) as [m' (Hd & Hh & _)].
    exists m'. split; [exact Hd|exact Hh].
Defined.

(** X2. [deleteAll] never fails, whatever the table holds; afterwards the
    array is empty, so [has] is false and [get] and [delete] fail at every
    index, and [create] succeeds at every index. *)
Theorem deleteAll_clears_every_slot {FP SFP} `{!FlightPlan.Ops FP SFP}
    d notify (m : Manager FP SFP) :
  ∃ m', deleteAll (dispatch d) notify m = (Normal tt, m') ∧
        plans m' = [] ∧
        ∀ i n, has i m' = false ∧
               get i m' = (Thrown (SlotNotFound i), m') ∧
               delete (dispatch d) i n m' = (Thrown (SlotNotFound i), m') ∧
               (create (dispatch d) i n m').1 = Normal tt.
Proof.
  eexists. split; [apply deleteAll_eq|].
  assert (plans (notified notify EvDeleteAll (with_plans [] m)) = []) as Hps
    by by rewrite plans_notified.
  split; [done|]. intros i n.
  assert (slot (plans (notified notify EvDeleteAll (with_plans [] m))) i = None)
    as Hs by by rewrite Hps.
  split_and!; [by apply has_empty|by apply get_empty|by apply delete_empty|].
  by rewrite create_empty.
Qed.

(** X3. [has] is the guard of [get]: [get(i)] returns an occupant exactly
    when [has(i)] is true, and fails with SlotNotFound exactly when it is
    false; either way [get] leaves the manager untouched. *)
Theorem get_succeeds_iff_has {FP SFP} `{!FlightPlan.Ops FP SFP}
    i (m : Manager FP SFP) :
  (has i m = true ↔ ∃ p, get i m = (Normal p, m) ∧ slot (plans m) i = Some p) ∧
  (has i m = false ↔ get i m = (Thrown (SlotNotFound i), m)) ∧
  (get i m).2 = m.
Proof.
  destruct (slot (plans m) i) as [p|] eqn:Hp.
  - rewrite (get_occupied _ _ p Hp). split_and!; [|split|done].
    + split; [intros _; by exists p|]. intros _. apply has_slot. by rewrite Hp.
    + intros Hh%has_empty. congruence.
    + done.
  - rewrite (get_empty _ _ Hp). split_and!; [|split|done].
    + split; [|by intros [p [? _]]]. intros Hh%has_slot. by destruct Hh.
    + done.
    + intros _. by apply has_empty.
Qed.

(** X4. [swap(a, b)] of two different occupied slots succeeds and exchanges
    the two occupants as they are (the same plans, so with the index and
    the version each had), and every other slot holds what it held. *)
Theorem swap_exchanges_occupants {FP SFP} `{!FlightPlan.Ops FP SFP}
    d a b notify (m : Manager FP SFP) pa pb :
  a ≠ b → slot (plans m) a = Some pa → slot (plans m) b = Some pb →
  ∃ m', swap (dispatch d) a b notify m = (Normal tt, m') ∧
        slot (plans m') a = Some pb ∧
        slot (plans m') b = Some pa ∧
        (∀ j, j ≠ a → j ≠ b → slot (plans m') j = slot (plans m) j).
Proof.
  intros Hne Ha Hb. eexists.
  split; [by apply (swap_occupied _ _ _ _ _ pa pb)|].
  rewrite plans_notified. cbn [plans with_plans]. split_and!.
  - rewrite slot_assign_ne by done. apply slot_assign_eq.
  - apply slot_assign_eq.
  - intros j Hja Hjb. by rewrite !slot_assign_ne.
Qed.

Lemma swap_exchanges_occupants_witness :
  (0 ≠ 1 ∧ slot (plans Examples.caughtUp) 0 = Some (SimplePlan.mk 0 0 [10]) ∧
   slot (plans Examples.caughtUp) 1 = Some (SimplePlan.mk 1 0 [20])) ∧
  ∃ m', swap (dispatch 2) 0 1 true Examples.caughtUp = (Normal tt, m') ∧
        slot (plans m') 0 = Some (SimplePlan.mk 1 0 [20]) ∧
        slot (plans m') 1 = Some (SimplePlan.mk 0 0 [10]).
Proof.
  split; [repeat split; discriminate|].
  destruct (swap_exchanges_occupants 2 0 1 true Examples.caughtUp
              (SimplePlan.mk 0 0 [10]) (SimplePlan.mk 1 0 [20]))
    as [m' (Hs & Ha & Hb & _)]; [discriminate|reflexivity|reflexivity|].
  exists m'. split; [exact Hs|]. split; [exact Ha|exact Hb].
Defined.

(** X5. Swapping the same two different occupied slots twice puts every slot
    of the table back as it was. *)
Theorem swap_twice_restores {FP SFP} `{!FlightPlan.Ops FP SFP}
    d a b notify notify' (m : Manager FP SFP) :
  a ≠ b → has a m = true → has b m = true →
  ∃ m1 m2, swap (dispatch d) a b notify m = (Normal tt, m1) ∧
           swap (dispatch d) a b notify' m1 = (Normal tt, m2) ∧
           ∀ j, slot (plans m2) j = slot (plans m) j.
Proof.
  intros Hne Ha%has_slot Hb%has_slot.
  destruct (slot (plans m) a) as [pa|] eqn:Hpa; [|done].
  destruct (slot (plans m) b) as [pb|] eqn:Hpb; [|done].
  destruct (swap_exchanges_occupants d a b notify m pa pb)
    as [m1 (Hs1 & Ha1 & Hb1 & Hj1)]; [done..|].
  destruct (swap_exchanges_occupants d a b notify' m1 pb pa)
    as [m2 (Hs2 & Ha2 & Hb2 & Hj2)]; [done..|].
  exists m1, m2. split_and!; [done..|]. intros j.
  destruct (decide (j = a)) as [->|Hja]; [congruence|].
  destruct (decide (j = b)) as [->|Hjb]; [congruence|].
  by rewrite Hj2, Hj1.
Qed.

Lemma swap_twice_restores_witness :
  (0 ≠ 1 ∧ has 0 Examples.caughtUp = true ∧ has 1 Examples.caughtUp = true) ∧
  ∃ m1 m2, swap (dispatch 2) 0 1 true Examples.caughtUp = (Normal tt, m1) ∧
           swap (dispatch 2) 0 1 true m1 = (Normal tt, m2) ∧
           ∀ j, slot (plans m2) j = slot (plans Examples.caughtUp) j.
Proof.
  split; [repeat split; discriminate|].
  apply (swap_twice_restores 2 0 1 true true Examples.caughtUp);
    [discriminate|reflexivity|reflexivity].
Defined.

(** X6. [create(i)] on an empty slot followed by [delete(i)] succeeds twice
    and leaves every slot holding what it held before the two calls (the
    array itself may have grown: [create] past the end extends it, and
    [delete] stores [undefined] without shrinking it). *)
Theorem create_delete_restores {FP SFP} `{!FlightPlan.Ops FP SFP}
    d i notify notify' (m : Manager FP SFP) :
  has i m = false →
  ∃ m1 m2, create (dispatch d) i notify m = (Normal tt, m1) ∧
           delete (dispatch d) i notify' m1 = (Normal tt, m2) ∧
           (∀ j, slot (plans m2) j = slot (plans m) j) ∧
           length (plans m) ≤ length (plans m2) ∧
           i < length (plans m2).
Proof.
  intros Hi%has_empty. eexists _, _.
  split; [by apply create_empty|].
  split.
  { apply (delete_occupied _ _ _ _ (FlightPlan.empty i)).
    rewrite plans_notified. apply slot_assign_eq. }
  rewrite !plans_notified. cbn [plans with_plans]. split_and!.
  - intros j. destruct (decide (i = j)) as [<-|Hne].
    + by rewrite slot_assign_eq.
    + by rewrite !slot_assign_ne.
  - unfold assign. repeat case_decide;
      rewrite ?length_insert, ?length_app, ?length_replicate in *; cbn in *; lia.
  - unfold assign. repeat case_decide;
      rewrite ?length_insert, ?length_app, ?length_replicate in *; cbn in *; lia.
Qed.

Lemma create_delete_restores_witness :
  has 3 Examples.withActive = false ∧
  ∃ m1 m2, create (dispatch 2) 3 true Examples.withActive = (Normal tt, m1) ∧
           delete (dispatch 2) 3 true m1 = (Normal tt, m2) ∧
           (∀ j, slot (plans m2) j = slot (plans Examples.withActive) j) ∧
           3 < length (plans m2).
Proof.
  split; [reflexivity|].
  destruct (create_delete_restores 2 3 true true Examples.withActive eq_refl)
    as (m1 & m2 & Hc & Hd & Hslots & _ & Hlen).
  exists m1, m2. split; [exact Hc|]. split; [exact Hd|]. split; [exact Hslots|].
  exact Hlen.
Defined.

(** * Snapshots *)

Section RecordFacts.
Context {A : Type}.
Implicit Types (rec : list (nat * A)) (k : nat) (v : A).

Lemma record_get_set k k' v rec :
  record_get k (record_set k' v rec)
  = if decide (k = k') then Some v else record_get k rec.
Proof.
  induction rec as [|[k0 v0] rec IH]; cbn [record_set record_get].
  - done.
  - destruct (decide (k' < k0)) as [Hlt|Hge]; [done|].
    destruct (decide (k' = k0)) as [->|Hne]; cbn [record_get].
    + by destruct (decide (k = k0)).
    + rewrite IH. destruct (decide (k = k0)) as [->|?]; [|done].
      by destruct (decide (k0 = k')) as [->|?].
Qed.

Lemma record_keys_set k k' v rec :
  k ∈ record_keys (record_set k' v rec) → k = k' ∨ k ∈ record_keys rec.
Proof.
  unfold record_keys.
  induction rec as [|[k0 v0] rec IH]; cbn [record_set].
  - intros ->%list_elem_of_singleton. by left.
  - destruct (decide (k' < k0)) as [Hlt|Hge];
      [|destruct (decide (k' = k0)) as [->|Hne]]; csimpl;
      rewrite !elem_of_cons.
    + intros [->|[->|Hin]]; auto.
    + intros [->|Hin]; auto.
    + intros [->|Hin]; [auto|]. destruct (IH Hin); auto.
Qed.

Lemma ascending_record_set k v rec :
  ascending (record_keys rec) → ascending (record_keys (record_set k v rec)).
Proof.
  unfold record_keys.
  induction rec as [|[k0 v0] rec IH]; cbn [record_set]; csimpl.
  - intros _. split; [by intros k' ?%elem_of_nil|done].
  - intros [Hlow Hrest].
    destruct (decide (k < k0)) as [Hlt|Hge]; csimpl.
    + split; [|done]. intros k' [->|Hin]%elem_of_cons; [done|].
      specialize (Hlow k' Hin). lia.
    + destruct (decide (k = k0)) as [->|Hne]; csimpl; [done|].
      split; [|by apply IH]. intros k' Hin.
      apply (record_keys_set k' k v rec) in Hin as [->|Hin]; [lia|by apply Hlow].
Qed.

Lemma ascending_NoDup (ks : list nat) : ascending ks → NoDup ks.
Proof.
  induction ks as [|k ks IH]; [constructor|]. intros [Hlow Hrest].
  constructor; [|by apply IH]. intros Hin. specialize (Hlow k Hin). lia.
Qed.

(** With one entry per key, [rec[k]] is the value of the entry for [k]. *)
Lemma record_get_Some k v rec :
  NoDup (record_keys rec) → record_get k rec = Some v ↔ (k, v) ∈ rec.
Proof.
  unfold record_keys.
  induction rec as [|[k0 v0] rec IH]; cbn [record_get]; csimpl.
  - intros _. split; [done|by intros ?%elem_of_nil].
  - intros [Hnotin Hnd]%NoDup_cons. rewrite elem_of_cons.
    destruct (decide (k = k0)) as [->|Hne].
    + split; [intros [= ->]; by left|]. intros [[= ->]|Hin]; [done|].
      destruct Hnotin. apply list_elem_of_fmap. by exists (k0, v).
    + rewrite IH by done. split; [by right|]. by intros [[= -> ->]|Hin].
Qed.

Lemma record_get_reverse k rec :
  NoDup (record_keys rec) → record_get k (reverse rec) = record_get k rec.
Proof.
  intros Hnd.
  assert (NoDup (record_keys (reverse rec))) as Hnd'.
  { unfold record_keys. by rewrite fmap_reverse, reverse_Permutation. }
  destruct (record_get k rec) as [v|] eqn:Hget.
  - apply (record_get_Some _ _ _ Hnd'). rewrite elem_of_reverse.
    by apply (record_get_Some _ _ _ Hnd).
  - destruct (record_get k (reverse rec)) as [v|] eqn:Hget'; [|done].
    apply (record_get_Some _ _ _ Hnd') in Hget'.
    rewrite elem_of_reverse in Hget'.
    apply (record_get_Some _ _ _ Hnd) in Hget'. congruence.
Qed.
End RecordFacts.

Section SnapshotFacts.
Context {FP SFP : Type} `{!FlightPlan.Ops FP SFP}.
Implicit Types (m : Manager FP SFP) (ps : list (option FP)) (d : nat).

Lemma plansRecord_snoc ps (o : option FP) :
  plansRecord (ps ++ [o])
  = match o with
    | Some p => record_set (FlightPlan.index p) (FlightPlan.serialize p)
                  (plansRecord ps)
    | None => plansRecord ps
    end.
Proof. unfold plansRecord. by rewrite foldl_app. Qed.

Lemma ascending_plansRecord ps : ascending (record_keys (plansRecord ps)).
Proof.
  induction ps as [|o ps IH] using rev_ind; [done|].
  rewrite plansRecord_snoc. destruct o; [by apply ascending_record_set|done].
Qed.

Lemma slot_snoc ps (o : option FP) i :
  slot (ps ++ [o]) i = if decide (i = length ps) then o else slot ps i.
Proof.
  unfold slot. destruct (decide (i = length ps)) as [->|Hne].
  - by rewrite list_lookup_middle.
  - destruct (decide (i < length ps)) as [Hlt|Hge].
    + by rewrite lookup_app_l.
    + rewrite !lookup_ge_None_2; [done|lia|rewrite length_app; cbn; lia].
Qed.

Lemma wellTagged_snoc ps (o : option FP) :
  wellTagged (ps ++ [o]) →
  wellTagged ps ∧ ∀ p, o = Some p → FlightPlan.index p = length ps.
Proof.
  intros Hw. split.
  - intros i p Hp. apply Hw. rewrite slot_snoc.
    destruct (decide (i = length ps)) as [->|?]; [|done].
    unfold slot in Hp. by rewrite lookup_ge_None_2 in Hp.
  - intros p ->. apply Hw. rewrite slot_snoc. by rewrite decide_True.
Qed.

(** On a well-tagged table the record holds, under each index, the
    serialized form of the plan in that slot, and nothing under the index
    of an empty slot. *)
Lemma record_get_plansRecord ps i :
  wellTagged ps →
  record_get i (plansRecord ps) = FlightPlan.serialize <$> slot ps i.
Proof.
  induction ps as [|o ps IH] using rev_ind; [done|].
  intros [Hw Ho]%wellTagged_snoc. rewrite plansRecord_snoc, slot_snoc.
  destruct o as [p|].
  - rewrite record_get_set, (Ho p eq_refl). case_decide; [done|by apply IH].
  - rewrite IH by done. case_decide as Hi; [|done]. subst i.
    unfold slot. by rewrite lookup_ge_None_2.
Qed.

(** The loop of the syncResponse handler, entry by entry: a later entry for
    the same index overwrites an earlier one. *)
Lemma slot_install entries ps i :
  slot (install entries ps) i
  = match record_get i (reverse entries) with
    | Some f => Some (FlightPlan.fromSerializedFlightPlan i f)
    | None => slot ps i
    end.
Proof.
  induction entries as [|[k f] entries IH] using rev_ind; [done|].
  unfold install. rewrite foldl_app, reverse_snoc. cbn [foldl record_get].
  rewrite slot_assign. fold (install entries ps).
  destruct (decide (k = i)) as [->|Hne].
  - by rewrite decide_True.
  - by rewrite decide_False.
Qed.
End SnapshotFacts.

(** X7. The record the syncRequest handler sends lists its keys in strictly
    ascending order, one entry per key; and when every plan of the table
    reports the index of its slot, the record holds under each index the
    serialized form of the plan in that slot, and has no entry for an empty
    slot. *)
Theorem snapshot_lists_the_table {FP SFP} `{!FlightPlan.Ops FP SFP}
    (ps : list (option FP)) :
  ascending (record_keys (plansRecord ps)) ∧
  (wellTagged ps →
   ∀ i, record_get i (plansRecord ps) = FlightPlan.serialize <$> slot ps i).
Proof.
  split; [apply ascending_plansRecord|]. intros Hw i.
  by apply record_get_plansRecord.
Qed.

Lemma snapshot_lists_the_table_witness :
  wellTagged (plans Examples.caughtUp) ∧
  record_get 1 (plansRecord (plans Examples.caughtUp))
  = FlightPlan.serialize <$> slot (plans Examples.caughtUp) 1.
Proof.
  assert (wellTagged (plans Examples.caughtUp)) as Hw.
  { intros [|[|i]] p Hp; vm_compute in Hp.
    - by injection Hp as <-.
    - by injection Hp as <-.
    - by destruct i. }
  split; [exact Hw|].
  apply (proj2 (snapshot_lists_the_table (plans Examples.caughtUp)) Hw 1).
Defined.

(** X8. The syncResponse handler never fails and publishes nothing, whatever
    the flag.  Given a record with one entry per index, afterwards every
    listed slot holds the plan rebuilt from its entry for that index,
    whatever it held before, and every slot not listed holds what it held. *)
Theorem syncResponse_overwrites_listed {FP SFP} `{!FlightPlan.Ops FP SFP}
    d entries (m : Manager FP SFP) :
  NoDup (record_keys entries) →
  ∃ m', dispatch (S d) (EvSyncResponse entries) m = (Normal tt, m') ∧
        (∀ i, slot (plans m') i
              = match record_get i entries with
                | Some f => Some (FlightPlan.fromSerializedFlightPlan i f)
                | None => slot (plans m) i
                end) ∧
        published m' = published m ∧ ignoreSync m' = ignoreSync m.
Proof.
  intros Hnd. eexists. split; [apply syncResponse_installs|].
  split_and!; [|done..]. intros i. cbn [plans with_plans].
  by rewrite slot_install, record_get_reverse.
Qed.

Lemma syncResponse_overwrites_listed_witness :
  NoDup (record_keys [(0, [10]); (2, [30])]) ∧
  ∃ m', dispatch 2 (EvSyncResponse [(0, [10]); (2, [30])]) Examples.withTwo
        = (Normal tt, m') ∧
        slot (plans m') 0 = Some (SimplePlan.mk 0 0 [10]) ∧
        slot (plans m') 1 = Some (SimplePlan.mk 1 0 []) ∧
        slot (plans m') 2 = Some (SimplePlan.mk 2 0 [30]).
Proof.
  assert (NoDup (record_keys [(0, [10]); (2, [30 : nat])])) as Hnd
    by (apply ascending_NoDup; cbn; repeat split;
        intros k; rewrite ?elem_of_cons, ?elem_of_nil; intros; intuition lia).
  split; [exact Hnd|].
  destruct (syncResponse_overwrites_listed 1 [(0, [10]); (2, [30])]
              Examples.withTwo Hnd) as [m' (Hh & Hslots & _)].
  exists m'. split; [exact Hh|].
  split; [exact (Hslots 0)|]. split; [exact (Hslots 1)|exact (Hslots 2)].
Defined.

(** X9. Snapshot round trip.  A unit whose plans all report the index of
    their slot answers a snapshot request (flag clear) with one response;
    a unit that handles that response then holds, in every slot the sender
    had occupied, the plan rebuilt from the serialized form of the sender's
    plan, tagged with that slot, and keeps what it had in every slot the
    sender had empty. *)
Theorem snapshot_round_trip {FP SFP} `{!FlightPlan.Ops FP SFP}
    d d' (sender receiver : Manager FP SFP) :
  wellTagged (plans sender) → ignoreSync sender = false →
  ∃ response sender' receiver',
    dispatch (S d) EvSyncRequest sender = (Normal tt, sender') ∧
    published sender' = published sender ++ [response] ∧
    dispatch (S d') response receiver = (Normal tt, receiver') ∧
    (∀ i, slot (plans receiver') i
          = match slot (plans sender) i with
            | Some p => Some (rebuilt i p)
            | None => slot (plans receiver) i
            end) ∧
    (∀ i p, slot (plans sender) i = Some p → FlightPlan.index (rebuilt i p) = i).
Proof.
  intros Hw Hi.
  exists (EvSyncResponse (plansRecord (plans sender))).
  destruct (sendEvent_returns d (EvSyncResponse (plansRecord (plans sender)))
              sender) as [ps [Hsend _]].
  assert (NoDup (record_keys (plansRecord (plans sender)))) as Hnd
    by apply ascending_NoDup, ascending_plansRecord.
  destruct (syncResponse_overwrites_listed d' _ receiver Hnd)
    as [receiver' (Hh & Hslots & _)].
  exists (broadcast (EvSyncResponse (plansRecord (plans sender)))
            (with_plans ps sender)), receiver'.
  split_and!.
  - cbn [dispatch handler]. rewrite unlessIgnoring_eq, Hi. step. exact Hsend.
  - done.
  - done.
  - intros i. rewrite Hslots, record_get_plansRecord by done.
    by destruct (slot (plans sender) i).
  - intros i p _. apply FlightPlan.index_fromSerializedFlightPlan.
Qed.

Lemma snapshot_round_trip_witness :
  (wellTagged (plans Examples.withTwo) ∧ ignoreSync Examples.withTwo = false) ∧
  ∃ response sender' receiver',
    dispatch 2 EvSyncRequest Examples.withTwo = (Normal tt, sender') ∧
    published sender' = published Examples.withTwo ++ [response] ∧
    dispatch 2 response Examples.fresh = (Normal tt, receiver') ∧
    slot (plans receiver') 1 = Some (SimplePlan.mk 1 0 []).
Proof.
  assert (wellTagged (plans Examples.withTwo)) as Hw.
  { intros [|[|i]] p Hp; vm_compute in Hp.
    - by injection Hp as <-.
    - by injection Hp as <-.
    - by destruct i. }
  split; [split; [exact Hw|reflexivity]|].
  destruct (snapshot_round_trip 1 1 Examples.withTwo Examples.fresh Hw eq_refl)
    as (response & sender' & receiver' & Hreq & Hpub & Hresp & Hslots & _).
  exists response, sender', receiver'.
  split; [exact Hreq|]. split; [exact Hpub|]. split; [exact Hresp|].
  exact (Hslots 1).
Defined.

(** * Publications and replay *)

Section CallFacts.
Context {FP SFP : Type} `{!FlightPlan.Ops FP SFP}.
Implicit Types (m : Manager FP SFP) (e : SyncEvent SFP) (d : nat)
  (st : Stimulus SFP).

(** Each of the five methods, whole: how it completes and what it writes is
    decided by the table alone; when it returns it has published its
    announcement, when it throws it has published nothing; nothing else of
    the manager changes but the flag, cleared by a publication. *)
Lemma react_call d st m :
  isCall st = true →
  react d st m
  = match onTable st (plans m) with
    | (Normal _, ps) => (Normal tt, announced (announcement st) (with_plans ps m))
    | (Thrown err, ps) => (Thrown err, with_plans ps m)
    end.
Proof.
  intros Hc. destruct st as [i n|i n|n|f t n|a b n|e|k]; try done;
    cbn [react onTable].
  - destruct (slot (plans m) i) as [p|] eqn:Hp.
    + by rewrite (create_occupied _ _ _ _ p), with_plans_same.
    + rewrite create_empty by done. by destruct n.
  - destruct (slot (plans m) i) as [p|] eqn:Hp.
    + rewrite (delete_occupied _ _ _ _ p) by done. by destruct n.
    + by rewrite delete_empty, with_plans_same.
  - rewrite deleteAll_eq. by destruct n.
  - destruct (slot (plans m) f) as [p|] eqn:Hp.
    + rewrite (copy_occupied _ _ _ _ _ p) by done. by destruct n.
    + by rewrite copy_empty, with_plans_same.
  - destruct (slot (plans m) a) as [pa|] eqn:Ha.
    2:{ by rewrite swap_empty_a, with_plans_same. }
    destruct (slot (plans m) b) as [pb|] eqn:Hb.
    2:{ by rewrite (swap_empty_b _ _ _ _ _ pa), with_plans_same. }
    destruct (decide (a = b)) as [->|Hne].
    + by rewrite (swap_self _ _ _ _ pa).
    + rewrite (swap_occupied _ _ _ _ _ pa pb) by done. by destruct n.
Qed.

Lemma published_announced evs m :
  published (announced evs m) = published m ++ evs.
Proof.
  revert m. induction evs as [|e evs IH]; intros m; cbn [announced foldl].
  - by rewrite app_nil_r.
  - fold (announced evs (broadcast e m)). rewrite IH. cbn.
    by rewrite <-app_assoc.
Qed.

Lemma plans_announced evs m : plans (announced evs m) = plans m.
Proof.
  revert m. induction evs as [|e evs IH]; intros m; [done|].
  cbn [announced foldl]. fold (announced evs (broadcast e m)). by rewrite IH.
Qed.

(** The handler of a mutation event makes the call that announced it, with
    [notify] off. *)
Lemma dispatch_announcement d st e m :
  announcement st = [e] → ignoreSync m = false →
  ∃ st', dispatch (S d) e m = react d st' m ∧ isCall st' = true ∧
         announcement st' = [] ∧ onTable st' = onTable st.
Proof.
  intros Hst Hi.
  destruct st as [i [|]|i [|]|[|]|f t [|]|a b [|]|e'|k]; try done;
    injection Hst as <-; cbn [dispatch handler]; rewrite unlessIgnoring_eq, Hi.
  - by exists (CallCreate i false).
  - by exists (CallDelete i false).
  - by exists (CallDeleteAll false).
  - by exists (CallCopy f t false).
  - by exists (CallSwap a b false).
Qed.
End CallFacts.

(** X10. A call of a mutating method publishes exactly its own event, once,
    when it returns normally and was called with [notify] on; it publishes
    nothing when it throws, and nothing when [notify] is off. *)
Theorem call_publishes_on_success_only {FP SFP} `{!FlightPlan.Ops FP SFP}
    d (st : Stimulus SFP) (m : Manager FP SFP) :
  isCall st = true →
  published (react d st m).2
  = published m ++ match (react d st m).1 with
                   | Normal _ => announcement st
                   | Thrown _ => []
                   end.
Proof.
  intros Hc. rewrite react_call by done.
  destruct (onTable st (plans m)) as [[[]|err] ps]; cbn [fst snd].
  - by rewrite published_announced.
  - cbn. by rewrite app_nil_r.
Qed.

Lemma call_publishes_on_success_only_witness :
  isCall (CallSwap 0 1 true : Stimulus (list nat)) = true ∧
  published (react 2 (CallSwap 0 1 true) Examples.withActive).2
  = published Examples.withActive ∧
  published (react 2 (CallCopy 0 1 true) Examples.withActive).2
  = published Examples.withActive ++ [EvCopy 0 1].
Proof.
  split; [reflexivity|]. split.
  - etrans; [apply (call_publishes_on_success_only 2 (CallSwap 0 1 true)
                      Examples.withActive eq_refl)|reflexivity].
  - apply (call_publishes_on_success_only 2 (CallCopy 0 1 true)
             Examples.withActive eq_refl).
Defined.

(** X11. Replication.  When a call with [notify] on returns normally, the
    event it published, handled by a unit that held the same table and has
    its flag clear, is replayed without error, leaves that unit with the
    same table as the caller, and is not published again. *)
Theorem published_event_replays_the_call {FP SFP} `{!FlightPlan.Ops FP SFP}
    d d' (st : Stimulus SFP) e (caller caller' peer : Manager FP SFP) :
  announcement st = [e] →
  react d st caller = (Normal tt, caller') →
  plans peer = plans caller → ignoreSync peer = false →
  published caller' = published caller ++ [e] ∧
  ∃ peer', dispatch (S d') e peer = (Normal tt, peer') ∧
           plans peer' = plans caller' ∧
           published peer' = published peer ∧
           ignoreSync peer' = false.
Proof.
  intros Hst Hcall Hplans Hi.
  assert (isCall st = true) as Hc by by destruct st as [|?[]| | | | |].
  rewrite react_call in Hcall by done.
  destruct (dispatch_announcement d' st e peer Hst Hi)
    as (st' & -> & Hc' & Hquiet & Htable).
  rewrite react_call, Htable, Hplans, Hquiet by done.
  destruct (onTable st (plans caller)) as [[[]|err] ps]; [|done].
  injection Hcall as <-. rewrite Hst. split; [done|].
  eexists. split; [done|]. split_and!; [done|done|exact Hi].
Qed.

Lemma published_event_replays_the_call_witness :
  (announcement (CallCopy 0 3 true : Stimulus (list nat)) = [EvCopy 0 3] ∧
   plans Examples.withActive = plans Examples.withActive ∧
   ignoreSync Examples.withActive = false) ∧
  ∃ caller' peer',
    react 2 (CallCopy 0 3 true) Examples.withActive = (Normal tt, caller') ∧
    dispatch 2 (EvCopy 0 3) Examples.withActive = (Normal tt, peer') ∧
    plans peer' = plans caller'.
Proof.
  split; [repeat split|].
  eexists.
  destruct (published_event_replays_the_call 2 1 (CallCopy 0 3 true) (EvCopy 0 3)
              Examples.withActive _ Examples.withActive eq_refl eq_refl eq_refl
              eq_refl) as (_ & peer' & Hh & Hp & _).
  exists peer'. split; [reflexivity|]. split; [exact Hh|exact Hp].
Defined.

Section HandlerPublications.
Context {FP SFP : Type} `{!FlightPlan.Ops FP SFP}.
Implicit Types (m : Manager FP SFP) (e : SyncEvent SFP) (d : nat).

Lemma dispatch_mutation d e m :
  isMutation e = true → ignoreSync m = false →
  ∃ st, dispatch (S d) e m = react d st m ∧ isCall st = true ∧
        announcement st = [].
Proof.
  intros He Hi. destruct e as [| |i|i| |f t|a b]; try done;
    cbn [dispatch handler]; rewrite unlessIgnoring_eq, Hi.
  - by exists (CallCreate i false).
  - by exists (CallDelete i false).
  - by exists (CallDeleteAll false).
  - by exists (CallCopy f t false).
  - by exists (CallSwap a b false).
Qed.

Lemma syncRequest_sends d m :
  ignoreSync m = false →
  dispatch (S d) EvSyncRequest m
  = sendEvent (dispatch d) (EvSyncResponse (plansRecord (plans m))) m.
Proof. intros Hi. cbn [dispatch handler]. by rewrite unlessIgnoring_eq, Hi. Qed.
End HandlerPublications.

(** X12. No handler publishes anything, except the syncRequest handler: with
    the flag clear it publishes exactly one syncResponse, carrying the
    record of the table as it is when the request arrives.  In particular a
    replayed mutation is never published again, and a snapshot response is
    never answered. *)
Theorem only_syncRequest_is_answered {FP SFP} `{!FlightPlan.Ops FP SFP}
    d e (m : Manager FP SFP) :
  published (dispatch (S d) e m).2
  = published m ++ (if isSyncRequest e && negb (ignoreSync m)
                    then [EvSyncResponse (plansRecord (plans m))]
                    else []).
Proof.
  destruct (ignoreSync m) eqn:Hi.
  - rewrite andb_false_r, app_nil_r.
    destruct (dispatch_ignoring (S d) e m Hi) as [ps ->]. done.
  - rewrite andb_true_r. destruct (isMutation e) eqn:He.
    + destruct (dispatch_mutation d e m He Hi) as (st & -> & Hc & Hq).
      rewrite react_call by done.
      replace (isSyncRequest e) with false by by destruct e.
      destruct (onTable st (plans m)) as [[[]|err] ps]; cbn [snd].
      * by rewrite published_announced, Hq.
      * cbn. by rewrite app_nil_r.
    + destruct e; try done; cbn [isSyncRequest].
      * rewrite syncRequest_sends by done.
        by destruct (sendEvent_returns d
                       (EvSyncResponse (plansRecord (plans m))) m) as [ps [-> _]].
      * rewrite syncResponse_installs. cbn. by rewrite app_nil_r.
Qed.





(** * Invariants of a unit's life *)

Section TagsKept.
Context {FP SFP : Type} `{!FlightPlan.Ops FP SFP}.
Implicit Types (m : Manager FP SFP) (e : SyncEvent SFP) (d : nat).

Lemma sendEvent_keeps_tags d e m :
  wellTagged (plans m) → wellTagged (plans (sendEvent (dispatch d) e m).2).
Proof.
  intros Hw. destruct (guarded e) eqn:Hg; [by rewrite sendEvent_guarded|].
  destruct e; try done. unfold sendEvent, pub. step.
  destruct (loopback m); [|done]. destruct d as [|d]; [done|].
  rewrite syncResponse_installs. step. by apply wellTagged_install.
Qed.

Lemma dispatch_keeps_tags d e m :
  (∀ a b, e ≠ EvSwap a b) → wellTagged (plans m) →
  wellTagged (plans (dispatch d e m).2).
Proof.
  intros He Hw. destruct d as [|d]; [done|].
  destruct e as [|entries|i|i| |f t|a b]; cbn [dispatch handler];
    rewrite ?unlessIgnoring_eq; try (destruct (ignoreSync m); [done|]).
  - step. by apply sendEvent_keeps_tags.
  - by apply (syncResponse_keeps_tags d).
  - by apply create_keeps_tags.
  - by apply delete_keeps_tags.
  - apply deleteAll_keeps_tags.
  - by apply copy_keeps_tags.
  - by destruct (He a b).
Qed.

Lemma react_keeps_tags d st m :
  swapFree st = true → wellTagged (plans m) →
  wellTagged (plans (react d st m).2).
Proof.
  intros Hst Hw. destruct st as [i n|i n|n|f t n|a b n|e|k]; cbn [react].
  - by apply create_keeps_tags.
  - by apply delete_keeps_tags.
  - apply deleteAll_keeps_tags.
  - by apply copy_keeps_tags.
  - done.
  - apply dispatch_keeps_tags; [|done]. intros a b ->. done.
  - destruct (timers m !! k); [|done]. by apply sendEvent_keeps_tags.
Qed.
End TagsKept.

(** X15. Only [swap] breaks the tagging of the table.  Through any sequence
    of calls, deliveries and timer firings in which [swap] is neither called
    nor replayed, failed calls included, a table whose plans each report the
    index of their slot stays so; the table of a new unit is one. *)
Theorem tags_kept_without_swap {FP SFP} `{!FlightPlan.Ops FP SFP}
    d (sts : list (Stimulus SFP)) (m : Manager FP SFP) :
  wellTagged (plans m) → Forall (λ st, swapFree st = true) sts →
  wellTagged (plans (run d sts m)) ∧
  ∀ lb id mstr, wellTagged (plans (run d sts (new lb id mstr : Manager FP SFP))).
Proof.
  intros Hw Hsts.
  assert (∀ m0 : Manager FP SFP,
            wellTagged (plans m0) → wellTagged (plans (run d sts m0))) as Hrun.
  { clear m Hw. induction Hsts as [|st sts Hst Hsts IH]; intros m0 Hw; [done|].
    cbn [run foldl]. by apply IH, react_keeps_tags. }
  split; [by apply Hrun|]. intros lb id mstr. apply Hrun, wellTagged_nil.
Qed.

Lemma tags_kept_without_swap_witness :
  (wellTagged (plans Examples.fresh) ∧
   Forall (λ st : Stimulus (list nat), swapFree st = true)
     [CallCreate 0 true; CallCopy 0 2 true; Deliver EvSyncRequest;
      CallDelete 1 true]) ∧
  wellTagged
    (plans (run 2 [CallCreate 0 true; CallCopy 0 2 true; Deliver EvSyncRequest;
                   CallDelete 1 true] Examples.fresh)).
Proof.
  assert (Forall (λ st : Stimulus (list nat), swapFree st = true)
            [CallCreate 0 true; CallCopy 0 2 true; Deliver EvSyncRequest;
             CallDelete 1 true]) as Hsts by (repeat constructor).
  split; [split; [apply wellTagged_nil|exact Hsts]|].
  apply (tags_kept_without_swap 2 _ Examples.fresh wellTagged_nil Hsts).
Defined.

(** * The PFD instrument *)

Section PfdCounts.
Import PFD.
Implicit Types (s : Instrument) (cs : list Call) (f : Call → bool).

Lemma count_app f cs cs' : count f (cs ++ cs') = count f cs + count f cs'.
Proof. induction cs as [|c cs IH]; cbn; [done|]. rewrite IH. lia. Qed.

End PfdCounts.

Ltac pfd_unfold :=
  unfold PFD.react, PFD.Update, PFD.connectedCallback, PFD.log,
    PFD.with_gameState in *;
  cbn [PFD.gameState PFD.adirsValueProvider PFD.fmsDataPublisher
       PFD.connections PFD.calls fst snd] in *.

Ltac pfd_leaf :=
  cbn [snd fst PFD.gameState PFD.adirsValueProvider PFD.fmsDataPublisher
       PFD.connections PFD.calls] in *;
  rewrite ?count_app;
  cbn [PFD.count PFD.isAdirsStart PFD.isStartPublish PFD.isOnUpdate
       PFD.isGetGameState PFD.frames Nat.add].

Section PfdFacts.
Import PFD.
Implicit Types (s : Instrument) (cs : list Call) (f : Call → bool).

(** The frame that starts the providers. *)
Lemma Update_starts s adirs fms :
  adirsValueProvider s = Some adirs → fmsDataPublisher s = Some fms →
  gameState s ≠ 3 →
  Update 3 s
  = (Returned,
     with_gameState 3
       (log (FmsStartPublish fms)
          (log (AdirsStart adirs)
             (log GetGameState (log BackplaneOnUpdate (log SuperUpdate s)))))).
Proof.
  intros Ha Hp Hg. unfold Update.
  cbn [gameState adirsValueProvider fmsDataPublisher log].
  by rewrite decide_True, (decide_True (P:=3 = 3)), Ha, Hp by done.
Qed.

Lemma consistent_new : consistent PFD.new.
Proof.
  unfold consistent. cbn. by split_and!.
Qed.

Lemma consistent_react ev s : consistent s → consistent (PFD.react ev s).2.
Proof.
  intros (Hiff & Hfms & Hadirs & Hpub & Hupd). unfold consistent.
  destruct ev as [i|r]; pfd_unfold.
  - pfd_leaf. split_and!; [done|by eauto|lia|lia|].
    intros Hg. rewrite (Hupd Hg). lia.
  - destruct (decide (gameState s ≠ 3)) as [Hg|Hg].
    + rewrite decide_False in Hadirs, Hpub by done.
      destruct (decide (r = 3)) as [->|Hr].
      * destruct (adirsValueProvider s) as [a|] eqn:Ha.
        -- destruct (fmsDataPublisher s) as [p|] eqn:Hp.
           ++ pfd_leaf. rewrite decide_True by done.
              split_and!; [done|by eauto|lia|lia|done].
           ++ destruct Hiff as [Hiff _]. by destruct (Hiff (mk_is_Some _ _ eq_refl)).
        -- pfd_leaf. rewrite decide_False by done.
           split_and!; [done|done|lia|lia|].
           intros _. rewrite (Hupd Hg). lia.
      * pfd_leaf. rewrite decide_False by done.
        split_and!; [done|done|lia|lia|]. intros _. rewrite (Hupd Hg). lia.
    + assert (gameState s = 3) as Hg3 by (destruct (decide (gameState s = 3)); tauto).
      rewrite decide_True in Hadirs, Hpub by done.
      destruct (Hfms Hg3) as [p Hp]. rewrite Hp in *. pfd_leaf.
      rewrite decide_True by done.
      split_and!; [done|by eauto|lia|lia|done].
Qed.

Lemma consistent_run evs s : consistent s → consistent (PFD.run evs s).
Proof.
  revert s. induction evs as [|ev evs IH]; intros s Hs; [done|].
  cbn [PFD.run foldl]. by apply IH, consistent_react.
Qed.
End PfdFacts.

(** X16. Through any sequence of attachments and frames from construction,
    the instrument has called [adirsValueProvider.start()] and
    [fmsDataPublisher.startPublish()] exactly once each if its [gameState]
    is 3 and never otherwise; it has never called
    [fmsDataPublisher.onUpdate()] while [gameState] was not yet 3; and when
    [gameState] is 3 the publisher is assigned. *)
Theorem pfd_providers_started_once (evs : list PFD.Event) :
  let s := PFD.run evs PFD.new in
  PFD.count PFD.isAdirsStart (PFD.calls s)
  = (if decide (PFD.gameState s = 3) then 1 else 0) ∧
  PFD.count PFD.isStartPublish (PFD.calls s)
  = (if decide (PFD.gameState s = 3) then 1 else 0) ∧
  (PFD.gameState s ≠ 3 → PFD.count PFD.isOnUpdate (PFD.calls s) = 0) ∧
  (PFD.gameState s = 3 → is_Some (PFD.fmsDataPublisher s)).
Proof.
  intros s.
  destruct (consistent_run evs PFD.new consistent_new)
    as (_ & Hfms & Hadirs & Hpub & Hupd).
  by split_and!.
Qed.

(** X17. Once [gameState] is 3 it stays 3, whatever later frames would read:
    with the publisher assigned, every later frame returns normally, calls
    [fmsDataPublisher.onUpdate()] exactly once and never [getGameState()],
    and no provider is started again. *)
Theorem pfd_game_state_latches (evs : list PFD.Event) (s : PFD.Instrument) :
  PFD.gameState s = 3 → is_Some (PFD.fmsDataPublisher s) →
  let s' := PFD.run evs s in
  PFD.gameState s' = 3 ∧ is_Some (PFD.fmsDataPublisher s') ∧
  (∀ r, (PFD.Update r s').1 = PFD.Returned) ∧
  PFD.count PFD.isGetGameState (PFD.calls s')
  = PFD.count PFD.isGetGameState (PFD.calls s) ∧
  PFD.count PFD.isAdirsStart (PFD.calls s')
  = PFD.count PFD.isAdirsStart (PFD.calls s) ∧
  PFD.count PFD.isStartPublish (PFD.calls s')
  = PFD.count PFD.isStartPublish (PFD.calls s) ∧
  PFD.count PFD.isOnUpdate (PFD.calls s')
  = PFD.count PFD.isOnUpdate (PFD.calls s) + PFD.frames evs.
Proof.
  revert s. induction evs as [|ev evs IH]; intros s Hg [p Hp]; cbn zeta.
  - cbn [PFD.run foldl PFD.frames].
    split_and!; [done|by eauto| |done|done|done|lia].
    intros r. pfd_unfold. by rewrite decide_False, Hp by tauto.
  - cbn [PFD.run foldl]. fold (PFD.run evs (PFD.react ev s).2).
    assert (PFD.gameState (PFD.react ev s).2 = 3 ∧
            is_Some (PFD.fmsDataPublisher (PFD.react ev s).2) ∧
            PFD.count PFD.isGetGameState (PFD.calls (PFD.react ev s).2)
            = PFD.count PFD.isGetGameState (PFD.calls s) ∧
            PFD.count PFD.isAdirsStart (PFD.calls (PFD.react ev s).2)
            = PFD.count PFD.isAdirsStart (PFD.calls s) ∧
            PFD.count PFD.isStartPublish (PFD.calls (PFD.react ev s).2)
            = PFD.count PFD.isStartPublish (PFD.calls s) ∧
            PFD.count PFD.isOnUpdate (PFD.calls (PFD.react ev s).2)
            = PFD.count PFD.isOnUpdate (PFD.calls s)
              + PFD.frames [ev]) as (Hg' & Hp' & H1 & H2 & H3 & H4).
    { destruct ev as [i|r]; pfd_unfold.
      - pfd_leaf. split_and!; [done|by eauto|lia..].
      - rewrite decide_False, Hp by tauto. pfd_leaf.
        split_and!; [done|by eauto|lia..]. }
    destruct (IH _ Hg' Hp') as (? & ? & ? & E1 & E2 & E3 & E4).
    split_and!; [done..|congruence|congruence|congruence|].
    rewrite E4, H4. destruct ev; cbn; lia.
Qed.

Lemma pfd_game_state_latches_witness :
  let s := PFD.run [PFD.Connect 1; PFD.Frame 3] PFD.new in
  (PFD.gameState s = 3 ∧ is_Some (PFD.fmsDataPublisher s)) ∧
  PFD.gameState (PFD.run [PFD.Frame 0; PFD.Frame 2] s) = 3 ∧
  PFD.count PFD.isOnUpdate (PFD.calls (PFD.run [PFD.Frame 0; PFD.Frame 2] s))
  = 2.
Proof.
  intros s.
  assert (PFD.gameState s = 3) as Hg by reflexivity.
  assert (is_Some (PFD.fmsDataPublisher s)) as Hp by (eexists; reflexivity).
  split; [split; [exact Hg|exact Hp]|].
  destruct (pfd_game_state_latches [PFD.Frame 0; PFD.Frame 2] s Hg Hp)
    as (Hg' & _ & _ & _ & _ & _ & Hupd).
  split; [exact Hg'|exact Hupd].
Defined.

(** X18. A frame that reads game state 3 while the providers are not yet
    assigned (no [connectedCallback] so far) throws a TypeError before
    anything is started and before [gameState] is written, so the next frame
    asks again; a frame that reads anything else stores the reading and
    returns.  After [connectedCallback(i)] a frame that reads 3 returns,
    starts the providers made for the side of [i] ('L' for 1, 'R' for every
    other index) and sets [gameState] to 3. *)
Theorem pfd_frame_before_connection (s : PFD.Instrument) :
  PFD.adirsValueProvider s = None → PFD.gameState s ≠ 3 →
  ((PFD.Update 3 s).1 = PFD.TypeError ∧
   PFD.gameState (PFD.Update 3 s).2 = PFD.gameState s ∧
   PFD.count PFD.isAdirsStart (PFD.calls (PFD.Update 3 s).2)
   = PFD.count PFD.isAdirsStart (PFD.calls s) ∧
   PFD.count PFD.isStartPublish (PFD.calls (PFD.Update 3 s).2)
   = PFD.count PFD.isStartPublish (PFD.calls s)) ∧
  (∀ r, r ≠ 3 → (PFD.Update r s).1 = PFD.Returned ∧
                PFD.gameState (PFD.Update r s).2 = r) ∧
  (∀ i, let s1 := PFD.run [PFD.Frame 3; PFD.Connect i] s in
        let made := PFD.mkProvider (PFD.connections s) (PFD.sideOf i) in
        PFD.Update 3 s1
        = (PFD.Returned,
           PFD.with_gameState 3
             (PFD.log (PFD.FmsStartPublish made)
                (PFD.log (PFD.AdirsStart made)
                   (PFD.log PFD.GetGameState
                      (PFD.log PFD.BackplaneOnUpdate
                         (PFD.log PFD.SuperUpdate s1))))))).
Proof.
  intros Ha Hg. split; [|split].
  - pfd_unfold. rewrite !decide_True, Ha by done. pfd_leaf.
    split_and!; [done|done|lia|lia].
  - intros r Hr. pfd_unfold.
    by rewrite decide_True, decide_False by done.
  - intros i s1 made.
    assert ((PFD.Update 3 s).2
            = PFD.log PFD.GetGameState
                (PFD.log PFD.BackplaneOnUpdate (PFD.log PFD.SuperUpdate s)))
      as Hfirst.
    { unfold PFD.Update.
      cbn [PFD.gameState PFD.adirsValueProvider PFD.log].
      by rewrite decide_True, (decide_True (P:=3 = 3)), Ha by done. }
    subst s1 made. cbn [PFD.run foldl PFD.react]. rewrite Hfirst.
    apply Update_starts; [reflexivity|reflexivity|exact Hg].
Qed.

Lemma pfd_frame_before_connection_witness :
  (PFD.adirsValueProvider PFD.new = None ∧ PFD.gameState PFD.new ≠ 3) ∧
  (PFD.Update 3 PFD.new).1 = PFD.TypeError ∧
  PFD.gameState (PFD.Update 3 PFD.new).2 = 0 ∧
  PFD.gameState (PFD.Update 3 (PFD.run [PFD.Frame 3; PFD.Connect 1] PFD.new)).2
  = 3.
Proof.
  assert (PFD.gameState PFD.new ≠ 3) as Hg by discriminate.
  split; [split; [reflexivity|exact Hg]|].
  destruct (pfd_frame_before_connection PFD.new eq_refl Hg)
    as ((Herr & Hsame & _) & _ & Hafter).
  split; [exact Herr|]. split; [exact Hsame|].
  by rewrite (Hafter 1).
Defined.
